(** * pytyrant: a shallow embedding of the Tokyo Tyrant binary protocol client

    The development follows [pytyrant.py]:
    - Python 2 [str] values (byte strings) are Rocq [string]s, one [ascii] per byte;
    - [struct.pack] / [struct.unpack] are interpreted over their format strings;
    - the socket is a pair of byte queues threaded through a state monad whose
      outcomes are a value, a raised exception, or a receive loop that never
      gets its bytes;
    - Python objects that are shared and mutated ([Query] instances and the
      lists they point to) live in an explicit store. *)

From Stdlib Require Import ZArith Ascii String DecimalString Lia.
From Stdlib Require Import Floats.PrimFloat Floats.SpecFloat Floats.FloatOps.
From stdpp Require Import gmap strings list fin_maps.

Local Open Scope Z_scope.

(** ** Byte strings *)

Module Bytes.

(** [s[:n]] for [0 <= n]. *)
Fixpoint take (n : nat) (s : string) : string :=
  match n, s with
  | S n', String c s' => String c (take n' s')
  | _, _ => EmptyString
  end.

(** [s[n:]] for [0 <= n]. *)
Fixpoint drop (n : nat) (s : string) : string :=
  match n, s with
  | S n', String _ s' => drop n' s'
  | _, _ => s
  end.

Definition len (s : string) : Z := Z.of_nat (String.length s).

(** [chr(i)] for [i] in [range(256)]. *)
Definition byte_of (i : Z) : ascii := ascii_of_N (Z.to_N i).

(** [ord(c)]. *)
Definition ord (c : ascii) : Z := Z.of_N (N_of_ascii c).

(** [''.join(lst)]. *)
Definition join (lst : list string) : string := String.concat "" lst.

(** [str(i)] of a Python integer. *)
Definition str (i : Z) : string := NilZero.string_of_int (Z.to_int i).

End Bytes.

(** ** Exceptions and outcomes *)

Inductive exn : Type :=
| TyrantError (fail_code : Z)
| KeyError (msg : string)
| IndexError
| TypeError
| ValueError (msg : string)
| AssertionError (msg : string)
| OverflowError
| StructError
| SystemError.   (* a dangling object handle: never raised from a well-formed store *)

(** What running a piece of the client yields: a value, a raised exception,
    or [Stall] when [sockrecv]'s loop is never handed the bytes it waits for. *)
Inductive outcome (A : Type) : Type :=
| Ok (a : A)
| Raise (e : exn)
| Stall.
Arguments Ok {A} a.
Arguments Raise {A} e.
Arguments Stall {A}.

(** Computations over a state [S] (the socket, or the socket with the object
    store).  The state reached when an exception is raised is kept: effects
    performed before a [raise] are not undone. *)
Definition M (S A : Type) : Type := S -> outcome A * S.

Definition ret {S A} (a : A) : M S A := fun s => (Ok a, s).
Definition raise {S A} (e : exn) : M S A := fun s => (Raise e, s).
Definition stall {S A} : M S A := fun s => (Stall, s).

Definition bind {S A B} (m : M S A) (k : A -> M S B) : M S B :=
  fun s =>
    match m s with
    | (Ok a, s') => k a s'
    | (Raise e, s') => (Raise e, s')
    | (Stall, s') => (Stall, s')
    end.

(** A pure computation that may raise, run inside [M]. *)
Definition pure {S A} (o : outcome A) : M S A := fun s => (o, s).

Declare Scope py_scope.
Delimit Scope py_scope with py.
Notation "x <- m ;; k" := (bind m (fun x => k))
  (at level 100, m at next level, right associativity) : py_scope.
Notation "m ;;; k" := (bind m (fun _ => k))
  (at level 100, right associativity) : py_scope.
Local Open Scope py_scope.

(** [try: body finally: fin], where the value bound in [fin] is what the code
    after the statement goes on with.  When [body] raises, [fin] still runs and
    the exception is re-raised once [fin] completes; an exception raised by
    [fin] itself replaces it. *)
Definition try_finally {S A B} (body : M S A) (fin : M S B) : M S B :=
  fun s =>
    match body s with
    | (Ok _, s') => fin s'
    | (Raise e, s') =>
        match fin s' with
        | (Ok _, s'') => (Raise e, s'')
        | r => r
        end
    | (Stall, s') => (Stall, s')
    end.

(** Binding in the fragment without state. *)
Definition obind {A B} (o : outcome A) (k : A -> outcome B) : outcome B :=
  match o with
  | Ok a => k a
  | Raise e => Raise e
  | Stall => Stall
  end.

(** ** [struct.pack] and [struct.unpack], big-endian *)

Module Struct.

(** [n] bytes of [v], most significant first. *)
Fixpoint be_bytes (n : nat) (v : Z) : string :=
  match n with
  | O => EmptyString
  | S n' =>
      String (Bytes.byte_of (Z.land (Z.shiftr v (8 * Z.of_nat n')) 255))
             (be_bytes n' v)
  end.

(** The unsigned integer a byte string spells, most significant byte first. *)
Fixpoint be_value_acc (acc : Z) (s : string) : Z :=
  match s with
  | EmptyString => acc
  | String c s' => be_value_acc (Z.lor (Z.shiftl acc 8) (Bytes.ord c)) s'
  end.
Definition be_value (s : string) : Z := be_value_acc 0 s.

(** Width in bytes of the format characters the client uses:
    [B] unsigned char, [I] unsigned int, [Q] unsigned long long. *)
Definition width (c : ascii) : option nat :=
  if Ascii.eqb c "B" then Some 1%nat
  else if Ascii.eqb c "I" then Some 4%nat
  else if Ascii.eqb c "Q" then Some 8%nat
  else None.

Fixpoint pack_fields (fmt : string) (vals : list Z) : outcome string :=
  match fmt, vals with
  | EmptyString, [] => Ok EmptyString
  | String c fmt', v :: vals' =>
      match width c with
      | Some w =>
          if (0 <=? v) && (v <? 2 ^ (8 * Z.of_nat w))
          then obind (pack_fields fmt' vals') (fun s => Ok (be_bytes w v +:+ s))
          else Raise StructError
      | None => Raise StructError
      end
  | _, _ => Raise StructError
  end.

(** [struct.pack(fmt, *vals)] for a format that starts with [>]:
    every value must fit its unsigned field. *)
Definition pack (fmt : string) (vals : list Z) : outcome string :=
  match fmt with
  | String c fmt' =>
      if Ascii.eqb c ">" then pack_fields fmt' vals else Raise StructError
  | EmptyString => Raise StructError
  end.

Fixpoint unpack_fields (fmt : string) (s : string) : outcome (list Z) :=
  match fmt with
  | EmptyString =>
      match s with EmptyString => Ok [] | _ => Raise StructError end
  | String c fmt' =>
      match width c with
      | Some w =>
          if (String.length s <? w)%nat then Raise StructError
          else obind (unpack_fields fmt' (Bytes.drop w s))
                     (fun vs => Ok (be_value (Bytes.take w s) :: vs))
      | None => Raise StructError
      end
  end.

(** [struct.unpack(fmt, s)]: [s] must be exactly as long as the format. *)
Definition unpack (fmt : string) (s : string) : outcome (list Z) :=
  match fmt with
  | String c fmt' =>
      if Ascii.eqb c ">" then unpack_fields fmt' s else Raise StructError
  | EmptyString => Raise StructError
  end.

End Struct.

Notation "'let!' x ':=' o 'in' k" := (obind o (fun x => k))
  (at level 10, x name, o at level 100, k at level 200) : py_scope.

(** ** Python floats: IEEE 754 binary64 *)

Module PyFloat.

(** [float(i)] of a Python integer, rounded to nearest even. *)
Definition of_int (i : Z) : float :=
  SF2Prim (binary_normalize prec emax i 0 false).

(** [int(x)]: truncation toward zero; infinities and NaN are refused. *)
Definition to_int (x : float) : outcome Z :=
  match Prim2SF x with
  | S754_nan => Raise (ValueError "cannot convert float NaN to integer")
  | S754_infinity _ => Raise OverflowError
  | S754_zero _ => Ok 0
  | S754_finite s m e =>
      let mag := if 0 <=? e then Z.shiftl (Zpos m) e
                 else Z.shiftr (Zpos m) (- e) in
      Ok (if s then - mag else mag)
  end.

(** [copysign(x, y)] for a [y] that is not NaN. *)
Definition with_sign_of (x y : float) : float :=
  if get_sign y then (- abs x)%float else abs x.

(** [math.modf(x)]: the fractional and the integer part of [x], both
    floats carrying the sign of [x]. *)
Definition modf (x : float) : float * float :=
  match Prim2SF x with
  | S754_nan => (x, x)
  | S754_infinity _ => (with_sign_of zero x, x)
  | S754_zero _ => (x, x)
  | S754_finite s m e =>
      let mag := if 0 <=? e then Z.shiftl (Zpos m) e
                 else Z.shiftr (Zpos m) (- e) in
      let ipart := with_sign_of (of_int mag) x in
      (with_sign_of (x - ipart)%float x, ipart)
  end.

End PyFloat.

(** ** Protocol constants *)

Definition DEFAULT_PORT : Z := 1978.
Definition MAGIC : Z := 0xc8.

Definition RDBMONOULOG : Z := Z.shiftl 1 0.
Definition RDBXOLCKREC : Z := Z.shiftl 1 0.
Definition RDBXOLCKGLB : Z := Z.shiftl 1 1.

Definition RDBQOSTRASC : Z := 0.
Definition RDBQOSTRDESC : Z := 1.
Definition RDBQONUMASC : Z := 2.
Definition RDBQONUMDESC : Z := 3.

(** Tyrant protocol constants (class [C]). *)
Module C.
Definition put : Z := 0x10.
Definition putkeep : Z := 0x11.
Definition putcat : Z := 0x12.
Definition putshl : Z := 0x13.
Definition putnr : Z := 0x18.
Definition out : Z := 0x20.
Definition get : Z := 0x30.
Definition mget : Z := 0x31.
Definition vsiz : Z := 0x38.
Definition iterinit : Z := 0x50.
Definition iternext : Z := 0x51.
Definition fwmkeys : Z := 0x58.
Definition addint : Z := 0x60.
Definition adddouble : Z := 0x61.
Definition ext : Z := 0x68.
Definition sync : Z := 0x70.
Definition vanish : Z := 0x71.
Definition copy : Z := 0x72.
Definition restore : Z := 0x73.
Definition setmst : Z := 0x78.
Definition rnum : Z := 0x80.
Definition size : Z := 0x81.
Definition stat : Z := 0x88.
Definition misc : Z := 0x90.
End C.

Definition QUERY_OPERATIONS : gmap string string :=
  list_to_map
    [ ("streq", "0"); ("strinc", "1"); ("strbw", "2"); ("strew", "3");
      ("strand", "4"); ("stror", "5"); ("stroreq", "6"); ("strrx", "7");
      ("numeq", "8"); ("numgt", "9"); ("numge", "10"); ("numlt", "11");
      ("numle", "12"); ("numbt", "13"); ("numoreq", "14") ].

(** ** Request frames *)

(** [chr(i)]: a one-byte string, for [i] in [range(256)]. *)
Definition chr (i : Z) : outcome string :=
  if (0 <=? i) && (i <? 256)
  then Ok (String (Bytes.byte_of i) EmptyString)
  else Raise (ValueError "chr() arg not in range(256)").

Definition _t0 (code : Z) : outcome (list string) :=
  let! m := chr MAGIC in
  let! c := chr code in
  Ok [m +:+ c].

Definition _t1 (code : Z) (key : string) : outcome (list string) :=
  let! h := Struct.pack ">BBI" [MAGIC; code; Bytes.len key] in
  Ok [h; key].

(** The loop [for k in lst: outlst.extend([struct.pack('>I', len(k)), k])]
    shared by [_t1FN] and [_tN]. *)
Fixpoint extend_len_prefixed (outlst : list string) (lst : list string)
  : outcome (list string) :=
  match lst with
  | [] => Ok outlst
  | k :: lst' =>
      let! p := Struct.pack ">I" [Bytes.len k] in
      extend_len_prefixed (outlst ++ [p; k]) lst'
  end.

Definition _t1FN (code : Z) (func : string) (opts : Z) (args : list string)
  : outcome (list string) :=
  let! h := Struct.pack ">BBIII"
              [MAGIC; code; Bytes.len func; opts; Z.of_nat (length args)] in
  extend_len_prefixed [h; func] args.

Definition _t1R (code : Z) (key : string) (msec : Z) : outcome (list string) :=
  let! h := Struct.pack ">BBIQ" [MAGIC; code; Bytes.len key; msec] in
  Ok [h; key].

Definition _t1M (code : Z) (key : string) (count : Z) : outcome (list string) :=
  let! h := Struct.pack ">BBII" [MAGIC; code; Bytes.len key; count] in
  Ok [h; key].

Definition _tN (code : Z) (klst : list string) : outcome (list string) :=
  let! h := Struct.pack ">BBI" [MAGIC; code; Z.of_nat (length klst)] in
  extend_len_prefixed [h] klst.

Definition _t2 (code : Z) (key value : string) : outcome (list string) :=
  let! h := Struct.pack ">BBII" [MAGIC; code; Bytes.len key; Bytes.len value] in
  Ok [h; key; value].

Definition _t2W (code : Z) (key value : string) (width : Z)
  : outcome (list string) :=
  let! h := Struct.pack ">BBIII"
              [MAGIC; code; Bytes.len key; Bytes.len value; width] in
  Ok [h; key; value].

Definition _t3F (code : Z) (func : string) (opts : Z) (key value : string)
  : outcome (list string) :=
  let! h := Struct.pack ">BBIIII"
              [MAGIC; code; Bytes.len func; opts; Bytes.len key; Bytes.len value] in
  Ok [h; func; key; value].

Definition _tDouble (code : Z) (key : string) (integ fract : Z)
  : outcome (list string) :=
  let! h := Struct.pack ">BBIQQ" [MAGIC; code; Bytes.len key; integ; fract] in
  Ok [h; key].

(** ** Transport primitives *)

(** The connected socket, seen from the client: the bytes the server has
    sent that were not read yet, and everything written so far. *)
Record sock : Type := Sock { incoming : string; outgoing : string }.

(** [sock.sendall(data)]. *)
Definition sendall (data : string) : M sock unit :=
  fun s => (Ok tt, {| incoming := incoming s; outgoing := outgoing s +:+ data |}).

(** [sock.recv(bufsize)]: the pending bytes, at most [bufsize] of them. *)
Definition recv (bufsize : Z) : M sock string :=
  fun s => (Ok (Bytes.take (Z.to_nat bufsize) (incoming s)),
            {| incoming := Bytes.drop (Z.to_nat bufsize) (incoming s);
               outgoing := outgoing s |}).

Definition socksend (lst : list string) : M sock unit :=
  sendall (Bytes.join lst).

(** The loop of [sockrecv]; a [recv] that hands back nothing leaves the loop
    waiting for ever, and so does a loop out of [fuel] (which [sockrecv]
    never is: every round adds a byte). *)
Fixpoint sockrecv_loop (fuel : nat) (bytes : Z) (d : string) : M sock string :=
  if Bytes.len d <? bytes then
    match fuel with
    | O => stall
    | S fuel' =>
        chunk <- recv (Z.min 8192 (bytes - Bytes.len d)) ;;
        match chunk with
        | EmptyString => stall
        | _ => sockrecv_loop fuel' bytes (d +:+ chunk)
        end
    end
  else ret d.

Definition sockrecv (bytes : Z) : M sock string :=
  sockrecv_loop (Z.to_nat bytes) bytes "".

Definition socksuccess : M sock unit :=
  d <- sockrecv 1 ;;
  match d with
  | String c EmptyString =>
      let fail_code := Bytes.ord c in
      if fail_code =? 0 then ret tt else raise (TyrantError fail_code)
  | _ => raise TypeError
  end.

(** [struct.unpack(fmt, s)[0]]. *)
Definition unpack_first (fmt s : string) : outcome Z :=
  let! vs := Struct.unpack fmt s in
  match vs with
  | v :: _ => Ok v
  | [] => Raise IndexError
  end.

Definition socklen : M sock Z :=
  d <- sockrecv 4 ;; pure (unpack_first ">I" d).

Definition socklong : M sock Z :=
  d <- sockrecv 8 ;; pure (unpack_first ">Q" d).

Definition sockstr : M sock string :=
  n <- socklen ;; sockrecv n.

(** The double nearest to [1e-12], the literal of [sockdouble]. *)
Definition float_1e_12 : float := 0x1.19799812dea11p-40%float.

Definition sockdouble : M sock float :=
  d <- sockrecv 16 ;;
  vs <- pure (Struct.unpack ">QQ" d) ;;
  match vs with
  | [intpart; fracpart] =>
      ret (PyFloat.of_int intpart + (PyFloat.of_int fracpart * float_1e_12))%float
  | _ => raise (ValueError "need more than 1 value to unpack")
  end.

Definition sockstrpair : M sock (string * string) :=
  klen <- socklen ;;
  vlen <- socklen ;;
  k <- sockrecv klen ;;
  v <- sockrecv vlen ;;
  ret (k, v).

(** [[m() for i in xrange(n)]]. *)
Fixpoint repeatM {S A} (n : nat) (m : M S A) : M S (list A) :=
  match n with
  | O => ret []
  | S n' => x <- m ;; xs <- repeatM n' m ;; ret (x :: xs)
  end.

(** ** The command client (class [Tyrant]) *)

Module Tyrant.

Definition put (key value : string) : M sock unit :=
  f <- pure (_t2 C.put key value) ;; socksend f ;;; socksuccess.

Definition putkeep (key value : string) : M sock unit :=
  f <- pure (_t2 C.putkeep key value) ;; socksend f ;;; socksuccess.

Definition putcat (key value : string) : M sock unit :=
  f <- pure (_t2 C.putcat key value) ;; socksend f ;;; socksuccess.

Definition putshl (key value : string) (width : Z) : M sock unit :=
  f <- pure (_t2W C.putshl key value width) ;; socksend f ;;; socksuccess.

Definition putnr (key value : string) : M sock unit :=
  f <- pure (_t2 C.putnr key value) ;; socksend f.

Definition out (key : string) : M sock unit :=
  f <- pure (_t1 C.out key) ;; socksend f ;;; socksuccess.

Definition get (key : string) : M sock string :=
  f <- pure (_t1 C.get key) ;; socksend f ;;; socksuccess ;;; sockstr.

(** [list(self._mget(klst))]: the generator run to its end. *)
Definition mget (klst : list string) : M sock (list (string * string)) :=
  f <- pure (_tN C.mget klst) ;; socksend f ;;; socksuccess ;;;
  numrecs <- socklen ;;
  repeatM (Z.to_nat numrecs) sockstrpair.

Definition vsiz (key : string) : M sock Z :=
  f <- pure (_t1 C.vsiz key) ;; socksend f ;;; socksuccess ;;; socklen.

Definition iterinit : M sock unit :=
  f <- pure (_t0 C.iterinit) ;; socksend f ;;; socksuccess.

Definition iternext : M sock string :=
  f <- pure (_t0 C.iternext) ;; socksend f ;;; socksuccess ;;; sockstr.

(** [list(self._fwmkeys(prefix, maxkeys))]. *)
Definition fwmkeys (prefix : string) (maxkeys : Z) : M sock (list string) :=
  f <- pure (_t1M C.fwmkeys prefix maxkeys) ;; socksend f ;;; socksuccess ;;;
  numkeys <- socklen ;;
  repeatM (Z.to_nat numkeys) sockstr.

Definition addint (key : string) (num : Z) : M sock Z :=
  f <- pure (_t1M C.addint key num) ;; socksend f ;;; socksuccess ;;; socklen.

(** The frame of [adddouble]: [math.modf] binds the fraction first, and the
    two parts are handed to [_tDouble] in the order [fracpart, intpart]. *)
Definition adddouble_frame (key : string) (num : float)
  : outcome (list string) :=
  let '(fracpart, intpart) := PyFloat.modf num in
  let! fracpart := PyFloat.to_int (fracpart * 1e12)%float in
  let! intpart := PyFloat.to_int intpart in
  _tDouble C.adddouble key fracpart intpart.

Definition adddouble (key : string) (num : float) : M sock float :=
  f <- pure (adddouble_frame key num) ;; socksend f ;;; socksuccess ;;;
  sockdouble.

Definition ext (func : string) (opts : Z) (key value : string)
  : M sock string :=
  f <- pure (_t3F C.ext func opts key value) ;; socksend f ;;;
  socksuccess ;;; sockstr.

Definition sync : M sock unit :=
  f <- pure (_t0 C.sync) ;; socksend f ;;; socksuccess.

Definition vanish : M sock unit :=
  f <- pure (_t0 C.vanish) ;; socksend f ;;; socksuccess.

Definition copy (path : string) : M sock unit :=
  f <- pure (_t1 C.copy path) ;; socksend f ;;; socksuccess.

Definition restore (path : string) (msec : Z) : M sock unit :=
  f <- pure (_t1R C.copy path msec) ;; socksend f ;;; socksuccess.

Definition setmst (host : string) (port : Z) : M sock unit :=
  f <- pure (_t1M C.setmst host port) ;; socksend f ;;; socksuccess.

Definition rnum : M sock Z :=
  f <- pure (_t0 C.rnum) ;; socksend f ;;; socksuccess ;;; socklong.

Definition size : M sock Z :=
  f <- pure (_t0 C.size) ;; socksend f ;;; socksuccess ;;; socklong.

Definition stat : M sock string :=
  f <- pure (_t0 C.stat) ;; socksend f ;;; socksuccess ;;; sockstr.

(** [list(self._misc(func, opts, args))]: the record count is read in the
    [finally] clause, whatever [socksuccess] did. *)
Definition misc (func : string) (opts : Z) (args : list string)
  : M sock (list string) :=
  f <- pure (_t1FN C.misc func opts args) ;; socksend f ;;;
  numrecs <- try_finally socksuccess socklen ;;
  repeatM (Z.to_nat numrecs) sockstr.

End Tyrant.

(** ** Python sequences *)

(** [xrange(start, stop, step)] for a positive [step]. *)
Definition xrange (start stop step : Z) : list Z :=
  (fun i => start + step * i) <$> seqZ 0 ((stop - start + step - 1) `div` step).

(** [lst[i]] for an integer [i]: a negative index counts from the end. *)
Definition list_item {A} (lst : list A) (i : Z) : outcome A :=
  let i' := if i <? 0 then i + Z.of_nat (length lst) else i in
  if i' <? 0 then Raise IndexError
  else match lst !! Z.to_nat i' with
       | Some x => Ok x
       | None => Raise IndexError
       end.

(** The bounds and the length of [lst[start:stop:step]] over a list of
    [len] items, as the interpreter clips them. *)
Definition slice_indices (len : Z) (start stop step : option Z)
  : outcome (Z * Z * Z) :=
  let step := default 1 step in
  if step =? 0 then Raise (ValueError "slice step cannot be zero")
  else
    let clip (v : Z) : Z :=
      let v := if v <? 0 then v + len else v in
      if v <? 0 then (if step <? 0 then -1 else 0)
      else if len <=? v then (if step <? 0 then len - 1 else len)
      else v in
    let start := match start with
                 | None => if step <? 0 then len - 1 else 0
                 | Some v => clip v
                 end in
    let stop := match stop with
                | None => if step <? 0 then -1 else len
                | Some v => clip v
                end in
    let slicelength :=
      if ((step <? 0) && (start <=? stop)) || ((0 <? step) && (stop <=? start))
      then 0
      else if step <? 0 then (stop - start + 1) `quot` step + 1
      else (stop - start - 1) `quot` step + 1 in
    Ok (start, step, slicelength).

(** [lst[start:stop:step]]. *)
Definition list_slice {A} (lst : list A) (start stop step : option Z)
  : outcome (list A) :=
  let! ind := slice_indices (Z.of_nat (length lst)) start stop step in
  let '(start, step, slicelength) := ind in
  Ok (omap (fun i => lst !! Z.to_nat (start + i * step)) (seqZ 0 slicelength)).

(** ** Helpers of the mapping wrapper *)

(** The generator handed to [dict] in [list_to_dict], consumed index by
    index: a later pair overrides an earlier one with the same key. *)
Fixpoint dict_of_pairs_at (lst : list string) (idx : list Z)
                          (d : gmap string string)
  : outcome (gmap string string) :=
  match idx with
  | [] => Ok d
  | i :: idx' =>
      let! k := list_item lst i in
      let! v := list_item lst (i + 1) in
      dict_of_pairs_at lst idx' (<[k := v]> d)
  end.

Definition list_to_dict (lst : list string) : outcome (gmap string string) :=
  dict_of_pairs_at lst (xrange 0 (Z.of_nat (length lst)) 2) ∅.

(** [dict_to_list(dct)]: the pairs of [dct.iteritems()] chained into one
    list.  [items] is the sequence [dct.iteritems()] runs through, each key
    once, in whatever order the dictionary keeps them. *)
Definition dict_to_list (items : list (string * string)) : list string :=
  mjoin ((fun p => [p.1; p.2]) <$> items).

(** [try: body except TyrantError: handler]. *)
Definition try_except_TyrantError {S A} (body handler : M S A) : M S A :=
  fun s =>
    match body s with
    | (Raise (TyrantError _), s') => handler s'
    | r => r
    end.

(** ** String helpers of the mapping wrapper *)

Definition TAB : ascii := "009"%char.
Definition LF : ascii := "010"%char.
Definition CR : ascii := "013"%char.

(** [s.splitlines()] on a byte string: a line ends at a line feed, at a
    carriage return, or at a carriage return followed by a line feed; what
    follows the last line end is a line when it is not empty. *)
Fixpoint splitlines_go (cur s : string) : list string :=
  match s with
  | EmptyString =>
      match cur with
      | EmptyString => []
      | _ => [cur]
      end
  | String c s' =>
      if Ascii.eqb c LF then cur :: splitlines_go "" s'
      else if Ascii.eqb c CR then
        match s' with
        | String c' s'' =>
            if Ascii.eqb c' LF then cur :: splitlines_go "" s''
            else cur :: splitlines_go "" s'
        | EmptyString => cur :: splitlines_go "" s'
        end
      else splitlines_go (cur +:+ String c "") s'
  end.

Definition splitlines (s : string) : list string := splitlines_go "" s.

(** [s.split(sep, 1)] for a one-byte separator: [s] alone when it has no
    separator, else what is before and what is after the first one. *)
Fixpoint split_once_go (sep : ascii) (cur s : string) : list string :=
  match s with
  | EmptyString => [cur]
  | String c s' =>
      if Ascii.eqb c sep then [cur; s']
      else split_once_go sep (cur +:+ String c "") s'
  end.

Definition split_once (s : string) (sep : ascii) : list string :=
  split_once_go sep "" s.

(** [dict(seqs)] for a sequence of sequences: each must have two items;
    [i] counts the elements consumed so far. *)
Fixpoint dict_of_seqs (i : Z) (d : gmap string string)
         (seqs : list (list string)) : outcome (gmap string string) :=
  match seqs with
  | [] => Ok d
  | [k; v] :: seqs' => dict_of_seqs (i + 1) (<[k := v]> d) seqs'
  | x :: _ =>
      Raise (ValueError
               ("dictionary update sequence element #" +:+ Bytes.str i
                +:+ " has length " +:+ Bytes.str (Z.of_nat (length x))
                +:+ "; 2 is required"))
  end.

(** ** The mapping wrapper (class [PyTyrant]) *)

Module PyTyrant.

(** [no_update_log and RDBMONOULOG or 0]. *)
Definition opts_of (no_update_log : bool) : Z :=
  if no_update_log then RDBMONOULOG else 0.

Definition multi_get (keys : list string) (no_update_log : bool)
  : M sock (list (option string)) :=
  let opts := opts_of no_update_log in
  rval <- Tyrant.misc "getlist" opts keys ;;
  if (length rval <=? length keys)%nat then
    (* 1.1.10 protocol, may return invalid results *)
    if (length rval <? length keys)%nat
    then raise (KeyError "Missing a result, unusable response in 1.1.10")
    else ret (Some <$> rval)
  else
    (* 1.1.11 protocol returns interleaved key, value list *)
    d <- pure (list_to_dict rval) ;;
    ret ((fun k => d !! k) <$> keys).

(** The generator made by [iterkeys()]: not started yet, suspended at its
    [yield], or finished. *)
Inductive gen_state : Type := GenCreated | GenSuspended | GenFinished.

(** One turn of the [while True] loop inside the [try]: a key is yielded,
    or [TyrantError] ends the generator. *)
Definition iterkeys_turn : M sock (option string * gen_state) :=
  try_except_TyrantError
    (k <- Tyrant.iternext ;; ret (Some k, GenSuspended))
    (ret (None, GenFinished)).

(** [next()] on the generator: [Some key] is a yielded key, [None] is
    [StopIteration]. *)
Definition iterkeys_next (g : gen_state) : M sock (option string * gen_state) :=
  match g with
  | GenCreated => Tyrant.iterinit ;;; iterkeys_turn
  | GenSuspended => iterkeys_turn
  | GenFinished => ret (None, GenFinished)
  end.

(** [list(gen)]. *)
Fixpoint list_of_gen (fuel : nat) (g : gen_state) : M sock (list string) :=
  match fuel with
  | O => stall
  | S fuel' =>
      r <- iterkeys_next g ;;
      match r with
      | (Some k, g') => ks <- list_of_gen fuel' g' ;; ret (k :: ks)
      | (None, _) => ret []
      end
  end.

(** [keys()]: every yielded key costs the server at least one byte, so the
    pending bytes bound the number of turns. *)
Definition keys : M sock (list string) :=
  fun s => list_of_gen (2 + String.length (incoming s)) GenCreated s.

(** [key in self]: [try: vsiz except TyrantError: False else: True]. *)
Definition __contains__ (key : string) : M sock bool :=
  try_except_TyrantError (Tyrant.vsiz key ;;; ret true) (ret false).

Definition has_key (key : string) : M sock bool := __contains__ key.

Definition __setitem__ (key value : string) : M sock unit :=
  Tyrant.put key value.

Definition __getitem__ (key : string) : M sock string :=
  try_except_TyrantError (Tyrant.get key) (raise (KeyError key)).

Definition __delitem__ (key : string) : M sock unit :=
  try_except_TyrantError (Tyrant.out key) (raise (KeyError key)).

Definition setdefault (key value : string) : M sock string :=
  try_except_TyrantError (Tyrant.putkeep key value ;;; ret value)
                         (__getitem__ key).

Definition __len__ : M sock Z := Tyrant.rnum.

Definition clear : M sock unit := Tyrant.vanish.

Definition multi_del (keys : list string) (no_update_log : bool) : M sock unit :=
  let opts := opts_of no_update_log in
  Tyrant.misc "outlist" opts keys ;;; ret tt.

(** The loop [for k, v in items: lst.extend((k, v))]. *)
Fixpoint extend_pairs (lst : list string) (items : list (string * string))
  : list string :=
  match items with
  | [] => lst
  | (k, v) :: items' => extend_pairs (lst ++ [k; v]) items'
  end.

Definition multi_set (items : list (string * string)) (no_update_log : bool)
  : M sock unit :=
  let opts := opts_of no_update_log in
  let lst := extend_pairs [] items in
  Tyrant.misc "putlist" opts lst ;;; ret tt.

Definition call_func (func key value : string)
           (record_locking global_locking : bool) : M sock string :=
  let opts := Z.lor (if record_locking then RDBXOLCKREC else 0)
                    (if global_locking then RDBXOLCKGLB else 0) in
  Tyrant.ext func opts key value.

Definition get_size (key : string) : M sock Z :=
  try_except_TyrantError (Tyrant.vsiz key) (raise (KeyError key)).


Definition concat (key value : string) (width : option Z) : M sock unit :=
  match width with
  | None => Tyrant.putcat key value
  | Some width => Tyrant.putshl key value width
  end.

Definition sync : M sock unit := Tyrant.sync.

(** [dict(l.split('\t', 1) for l in self.t.stat().splitlines() if l)]. *)
Definition get_stats : M sock (gmap string string) :=
  report <- Tyrant.stat ;;
  let lines := filter (fun l => l <> EmptyString) (splitlines report) in
  pure (dict_of_seqs 0 ∅ ((fun l => split_once l TAB) <$> lines)).

End PyTyrant.

(** ** The table wrapper (class [PyTableTyrant]) *)

(** A record is a dictionary from column names to column values, handed
    over as the sequence its [iteritems()] runs through. *)
Module PyTableTyrant.

Definition __setitem__ (key : string) (value : list (string * string))
  : M sock unit :=
  Tyrant.misc "put" 0 ([key] ++ dict_to_list value) ;;; ret tt.

Definition __getitem__ (key : string) : M sock (gmap string string) :=
  try_except_TyrantError
    (l <- Tyrant.misc "get" 0 [key] ;; pure (list_to_dict l))
    (raise (KeyError key)).

(** The loop [for k, v in items: lst.extend((k, '\x00'.join(dict_to_list(v))))]. *)
Fixpoint extend_records (lst : list string)
         (items : list (string * list (string * string))) : list string :=
  match items with
  | [] => lst
  | (k, v) :: items' =>
      extend_records
        (lst ++ [k; String.concat (String (Bytes.byte_of 0) "") (dict_to_list v)])
        items'
  end.

Definition multi_set (items : list (string * list (string * string)))
           (no_update_log : bool) : M sock unit :=
  let opts := PyTyrant.opts_of no_update_log in
  let lst := extend_records [] items in
  Tyrant.misc "putlist" opts lst ;;; ret tt.

Definition concat (key : string) (value : list (string * string))
           (width : option Z) (no_update_log : bool) : M sock unit :=
  let opts := PyTyrant.opts_of no_update_log in
  match width with
  | None => Tyrant.misc "putcat" opts ([key] ++ dict_to_list value) ;;; ret tt
  | Some _ =>
      raise (ValueError "Cannot concat with a width on a table database")
  end.

End PyTableTyrant.

(** ** The object store *)

Definition loc : Type := positive.

(** A [Query] instance: its attributes hold handles, so that two instances
    can point to one list. *)
Record Query : Type := mkQuery {
  ptt : loc;                      (* the table wrapper the query runs on *)
  conditions : loc;               (* a list of condition strings *)
  _result_cache : option loc      (* [None], or the list of result keys *)
}.

(** The connection of the wrapper under study together with the live lists
    and [Query] instances. *)
Record world : Type := World {
  w_sock : sock;
  w_lists : gmap loc (list string);
  w_queries : gmap loc Query
}.

Definition lift_sock {A} (m : M sock A) : M world A :=
  fun w =>
    let '(r, s') := m (w_sock w) in
    (r, {| w_sock := s'; w_lists := w_lists w; w_queries := w_queries w |}).

Definition new_list (l : list string) : M world loc :=
  fun w =>
    let a := fresh (dom (w_lists w)) in
    (Ok a, {| w_sock := w_sock w; w_lists := <[a := l]> (w_lists w);
              w_queries := w_queries w |}).

Definition get_list (a : loc) : M world (list string) :=
  fun w =>
    match w_lists w !! a with
    | Some l => (Ok l, w)
    | None => (Raise SystemError, w)
    end.

(** [lst.append(x)] on the list at [a]. *)
Definition list_append (a : loc) (x : string) : M world unit :=
  l <- get_list a ;;
  fun w => (Ok tt, {| w_sock := w_sock w; w_lists := <[a := l ++ [x]]> (w_lists w);
                      w_queries := w_queries w |}).

Definition new_query (q : Query) : M world loc :=
  fun w =>
    let a := fresh (dom (w_queries w)) in
    (Ok a, {| w_sock := w_sock w; w_lists := w_lists w;
              w_queries := <[a := q]> (w_queries w) |}).

Definition get_query (a : loc) : M world Query :=
  fun w =>
    match w_queries w !! a with
    | Some q => (Ok q, w)
    | None => (Raise SystemError, w)
    end.

Definition set_query (a : loc) (q : Query) : M world unit :=
  fun w => (Ok tt, {| w_sock := w_sock w; w_lists := w_lists w;
                      w_queries := <[a := q]> (w_queries w) |}).

(** ** String helpers of the query engine *)

(** [s.split(sep)] for a non-empty [sep]: [skip] counts the bytes of a
    separator found at an earlier position that are still to be passed. *)
Fixpoint split_go (sep : string) (skip : nat) (cur s : string) : list string :=
  match s with
  | EmptyString => [cur]
  | String c s' =>
      match skip with
      | S k => split_go sep k cur s'
      | O =>
          if String.prefix sep s
          then cur :: split_go sep (String.length sep - 1) "" s'
          else split_go sep 0 (cur +:+ String c "") s'
      end
  end.

Definition str_split (s sep : string) : list string := split_go sep 0 "" s.

(** [s.startswith('-')]. *)
Definition startswith_dash (s : string) : bool := String.prefix "-" s.

(** What a keyword argument of [filter] may hold: a string, or an iterable
    of strings. *)
Inductive filter_value : Type :=
| FStr (s : string)
| FList (items : list string).

(** What [Query.__getitem__] is indexed with. *)
Inductive index : Type :=
| KInt (k : Z)
| KSlice (start stop step : option Z)
| KOther.

(** What [Query.__getitem__] returns. *)
Inductive item : Type :=
| VNone
| VStr (s : string)
| VList (l : list string).

Definition NUL : string := String (Bytes.byte_of 0) "".

(** ** The query engine (class [Query]) *)

Module Query.

(** [Query(ptt)]. *)
Definition __init__ (ptt : loc) : M world loc :=
  c <- new_list [] ;;
  new_query {| ptt := ptt; conditions := c; _result_cache := None |}.

(** [self._clone()], as every caller uses it: default class, no keywords. *)
Definition _clone (self : loc) : M world loc :=
  me <- get_query self ;;
  q <- __init__ (ptt me) ;;
  cs <- get_list (conditions me) ;;
  copy <- new_list cs ;;
  q0 <- get_query q ;;
  set_query q {| ptt := ptt q0; conditions := copy;
                 _result_cache := _result_cache q0 |} ;;;
  ret q.

(** The body of the loop of [filter], up to the condition string. *)
Definition filter_condition (key : string) (value : filter_value)
  : outcome string :=
  match str_split key "__" with
  | [field; operation] =>
      match QUERY_OPERATIONS !! operation with
      | Some opcode =>
          let value := match value with
                       | FStr s => s
                       | FList items => String.concat "," items
                       end in
          Ok (String.concat NUL ["addcond"; field; opcode; value])
      | None =>
          Raise (ValueError (operation +:+ " is not a valid query operation"))
      end
  | _ => Raise (ValueError
           "Filter arguments should be of the form `field__operation`")
  end.

Fixpoint filter_loop (q : loc) (query : list (string * filter_value))
  : M world unit :=
  match query with
  | [] => ret tt
  | (key, value) :: query' =>
      condition <- pure (filter_condition key value) ;;
      qo <- get_query q ;;
      list_append (conditions qo) condition ;;;
      filter_loop q query'
  end.

(** [self.filter] called with the keyword arguments [query], in the order
    [iteritems] gives them. *)
Definition filter (self : loc) (query : list (string * filter_value))
  : M world loc :=
  q <- _clone self ;;
  filter_loop q query ;;;
  ret q.

Definition order_condition (field : string) (desc asc : Z) : string :=
  let '(direction, field) :=
    if startswith_dash field then (desc, Bytes.drop 1 field)
    else (asc, field) in
  String.concat NUL ["setorder"; field; Bytes.str direction].

Definition order_by_num (self : loc) (field : string) : M world loc :=
  q <- _clone self ;;
  let condition := order_condition field RDBQONUMDESC RDBQONUMASC in
  qo <- get_query q ;;
  list_append (conditions qo) condition ;;;
  ret q.

Definition order_by_str (self : loc) (field : string) : M world loc :=
  q <- _clone self ;;
  let condition := order_condition field RDBQOSTRDESC RDBQOSTRASC in
  qo <- get_query q ;;
  list_append (conditions qo) condition ;;;
  ret q.

(** [self._get_results()]: the handle of the cached list. *)
Definition _get_results (self : loc) : M world loc :=
  me <- get_query self ;;
  match _result_cache me with
  | None =>
      cs <- get_list (conditions me) ;;
      resp <- lift_sock (Tyrant.misc "search" 0 cs) ;;
      r <- new_list resp ;;
      me' <- get_query self ;;
      set_query self {| ptt := ptt me'; conditions := conditions me';
                        _result_cache := Some r |} ;;;
      ret r
  | Some r => ret r
  end.

(** The assertion of [__getitem__]. *)
Definition index_supported (k : index) : bool :=
  match k with
  | KInt k => 0 <=? k
  | KSlice start stop _ =>
      match start with None => true | Some v => 0 <=? v end
      && match stop with None => true | Some v => 0 <=? v end
  | KOther => false
  end.

(** [self._result_cache[k]] on a cached list. *)
Definition cache_item (cache : list string) (k : index) : outcome item :=
  match k with
  | KInt i => let! x := list_item cache i in Ok (VStr x)
  | KSlice start stop step =>
      let! l := list_slice cache start stop step in Ok (VList l)
  | KOther => Raise TypeError
  end.

(** [x or 0] for an optional integer. *)
Definition or_0 (x : option Z) : Z :=
  match x with
  | Some v => if v =? 0 then 0 else v
  | None => 0
  end.

(** [k.step and list(resp)[::k.step] or resp]. *)
Definition step_or_all (step : option Z) (resp : list string)
  : outcome (list string) :=
  match step with
  | Some st =>
      if st =? 0 then Ok resp
      else
        let! l := list_slice resp None None (Some st) in
        Ok (match l with [] => resp | _ => l end)
  | None => Ok resp
  end.

Definition __getitem__ (self : loc) (k : index) : M world item :=
  match k with
  | KOther => raise TypeError
  | _ =>
    if negb (index_supported k)
    then raise (AssertionError "Negative indexing is not supported.")
    else
      me <- get_query self ;;
      cache <- match _result_cache me with
               | None => ret None
               | Some r => l <- get_list r ;; ret (Some l)
               end ;;
      match cache with
      | Some (c :: cache') =>
          match cache_item (c :: cache') k with
          | Raise IndexError =>
              (* Same behavior as querying the DB if the key doesn't exist *)
              match k with
              | KSlice _ _ _ => raise IndexError
              | _ => ret VNone
              end
          | r => pure r
          end
      | _ =>
          match k with
          | KSlice start stop step =>
              let limit := match stop with
                           | Some stop => stop - or_0 start
                           | None => -1
                           end in
              let condition :=
                String.concat NUL
                  ["setlimit"; Bytes.str limit; Bytes.str (or_0 start)] in
              cs <- get_list (conditions me) ;;
              resp <- lift_sock (Tyrant.misc "search" 0 (cs ++ [condition])) ;;
              l <- pure (step_or_all step resp) ;;
              ret (VList l)
          | KInt i =>
              let condition :=
                String.concat NUL ["setlimit"; Bytes.str 1; Bytes.str i] in
              cs <- get_list (conditions me) ;;
              resp <- lift_sock (Tyrant.misc "search" 0 (cs ++ [condition])) ;;
              match resp with
              | [] => ret VNone
              | r :: _ => ret (VStr r)
              end
          | KOther => raise TypeError
          end
      end
  end.

(** [len(self)]. *)
Definition __len__ (self : loc) : M world nat :=
  r <- _get_results self ;;
  l <- get_list r ;;
  ret (length l).

End Query.

(** ** What the server puts on the wire *)

Module Wire.

(** The status byte that opens every reply. *)
Definition status (code : Z) : string := String (Bytes.byte_of code) "".

Definition u32 (v : Z) : string := Struct.be_bytes 4 v.
Definition u64 (v : Z) : string := Struct.be_bytes 8 v.

(** A length-prefixed byte string. *)
Definition lstr (s : string) : string := u32 (Bytes.len s) +:+ s.

(** [n] copies of [s], one after the other. *)
Fixpoint times (n : nat) (s : string) : string :=
  match n with
  | O => ""
  | S n' => s +:+ times n' s
  end.

(** The replies to a successful [iternext], one per key. *)
Fixpoint key_replies (ks : list string) : string :=
  match ks with
  | [] => ""
  | k :: ks' => status 0 +:+ lstr k +:+ key_replies ks'
  end.

End Wire.

(** ** Statement vocabulary *)

(** A computation that only reads: what was written stays as it was. *)
Definition reads_only {A} (m : M sock A) : Prop :=
  forall s, outgoing (snd (m s)) = outgoing s.

(** The commands of the client that read a reply (all but [putnr]). *)
Inductive call : Type :=
| DoPut (key value : string)
| DoPutkeep (key value : string)
| DoPutcat (key value : string)
| DoPutshl (key value : string) (width : Z)
| DoOut (key : string)
| DoGet (key : string)
| DoMget (klst : list string)
| DoVsiz (key : string)
| DoIterinit
| DoIternext
| DoFwmkeys (prefix : string) (maxkeys : Z)
| DoAddint (key : string) (num : Z)
| DoAdddouble (key : string) (num : float)
| DoExt (func : string) (opts : Z) (key value : string)
| DoSync
| DoVanish
| DoCopy (path : string)
| DoRestore (path : string) (msec : Z)
| DoSetmst (host : string) (port : Z)
| DoRnum
| DoSize
| DoStat
| DoMisc (func : string) (opts : Z) (args : list string).

(** What a command returns. *)
Inductive reply : Type :=
| RNone
| RStr (s : string)
| RInt (n : Z)
| RFloat (x : float)
| RStrs (l : list string)
| RPairs (l : list (string * string)).

(** The frame each command builds before it sends anything. *)
Definition frame_of (c : call) : outcome (list string) :=
  match c with
  | DoPut key value => _t2 C.put key value
  | DoPutkeep key value => _t2 C.putkeep key value
  | DoPutcat key value => _t2 C.putcat key value
  | DoPutshl key value width => _t2W C.putshl key value width
  | DoOut key => _t1 C.out key
  | DoGet key => _t1 C.get key
  | DoMget klst => _tN C.mget klst
  | DoVsiz key => _t1 C.vsiz key
  | DoIterinit => _t0 C.iterinit
  | DoIternext => _t0 C.iternext
  | DoFwmkeys prefix maxkeys => _t1M C.fwmkeys prefix maxkeys
  | DoAddint key num => _t1M C.addint key num
  | DoAdddouble key num => Tyrant.adddouble_frame key num
  | DoExt func opts key value => _t3F C.ext func opts key value
  | DoSync => _t0 C.sync
  | DoVanish => _t0 C.vanish
  | DoCopy path => _t1 C.copy path
  | DoRestore path msec => _t1R C.copy path msec
  | DoSetmst host port => _t1M C.setmst host port
  | DoRnum => _t0 C.rnum
  | DoSize => _t0 C.size
  | DoStat => _t0 C.stat
  | DoMisc func opts args => _t1FN C.misc func opts args
  end.

(** Running a command through the method of [Tyrant] that implements it. *)
Definition run (c : call) : M sock reply :=
  match c with
  | DoPut key value => Tyrant.put key value ;;; ret RNone
  | DoPutkeep key value => Tyrant.putkeep key value ;;; ret RNone
  | DoPutcat key value => Tyrant.putcat key value ;;; ret RNone
  | DoPutshl key value width => Tyrant.putshl key value width ;;; ret RNone
  | DoOut key => Tyrant.out key ;;; ret RNone
  | DoGet key => v <- Tyrant.get key ;; ret (RStr v)
  | DoMget klst => l <- Tyrant.mget klst ;; ret (RPairs l)
  | DoVsiz key => n <- Tyrant.vsiz key ;; ret (RInt n)
  | DoIterinit => Tyrant.iterinit ;;; ret RNone
  | DoIternext => k <- Tyrant.iternext ;; ret (RStr k)
  | DoFwmkeys prefix maxkeys => l <- Tyrant.fwmkeys prefix maxkeys ;; ret (RStrs l)
  | DoAddint key num => n <- Tyrant.addint key num ;; ret (RInt n)
  | DoAdddouble key num => x <- Tyrant.adddouble key num ;; ret (RFloat x)
  | DoExt func opts key value => v <- Tyrant.ext func opts key value ;; ret (RStr v)
  | DoSync => Tyrant.sync ;;; ret RNone
  | DoVanish => Tyrant.vanish ;;; ret RNone
  | DoCopy path => Tyrant.copy path ;;; ret RNone
  | DoRestore path msec => Tyrant.restore path msec ;;; ret RNone
  | DoSetmst host port => Tyrant.setmst host port ;;; ret RNone
  | DoRnum => n <- Tyrant.rnum ;; ret (RInt n)
  | DoSize => n <- Tyrant.size ;; ret (RInt n)
  | DoStat => v <- Tyrant.stat ;; ret (RStr v)
  | DoMisc func opts args => l <- Tyrant.misc func opts args ;; ret (RStrs l)
  end.

(** The frame of a command without arguments. *)
Definition frame0 (code : Z) : string :=
  String (Bytes.byte_of MAGIC) (String (Bytes.byte_of code) "").

(** The pagination directive [setlimit], as [__getitem__] spells it. *)
Definition setlimit (limit offset : Z) : string :=
  String.concat NUL ["setlimit"; Bytes.str limit; Bytes.str offset].

(** One [misc('search', 0, ...)] call with the conditions [cs] followed by
    a [setlimit] directive. *)
Definition bounded_search (cs : list string) (limit offset : Z)
  : M world (list string) :=
  lift_sock (Tyrant.misc "search" 0 (cs ++ [setlimit limit offset])).

(** A slice bound that is absent or not negative. *)
Definition bound_ok (b : option Z) : Prop :=
  match b with
  | Some v => 0 <= v
  | None => True
  end.

(** The conditions a call of [filter] appends, keyword by keyword. *)
Fixpoint filter_conditions (query : list (string * filter_value))
  : outcome (list string) :=
  match query with
  | [] => Ok []
  | (key, value) :: query' =>
      let! c := Query.filter_condition key value in
      let! cs := filter_conditions query' in
      Ok (c :: cs)
  end.

(** What a derivation from the query at [self] (attributes [me], conditions
    [cs]) leaves behind when it returns: a new [Query] object whose
    condition list is a new list holding [cs ++ added] and whose cache is
    unpopulated, every object and list that existed before being as it
    was. *)
Definition derived_from (w : world) (me : Query) (cs added : list string)
           (r : outcome loc * world) : Prop :=
  exists (q c : loc) (w' : world),
    r = (Ok q, w')
    /\ (q ∉ dom (w_queries w))
    /\ (c ∉ dom (w_lists w))
    /\ w_queries w' !! q
       = Some {| ptt := ptt me; conditions := c; _result_cache := None |}
    /\ w_lists w' !! c = Some (cs ++ added)
    /\ (forall a, a ∈ dom (w_queries w) -> w_queries w' !! a = w_queries w !! a)
    /\ (forall l, l ∈ dom (w_lists w) -> w_lists w' !! l = w_lists w !! l)
    /\ w_sock w' = w_sock w.

(** A computation that leaves the connection and the store alone. *)
Definition keeps_world {A} (k : M world A) : Prop :=
  forall w, snd (k w) = w.

(** What indexing with an integer makes of the response of the search. *)
Definition first_or_None (resp : list string) : item :=
  match resp with
  | [] => VNone
  | r :: _ => VStr r
  end.

(** What slicing makes of the response of the search: the list itself when
    the step is absent or 0, and [resp[::step]] otherwise. *)
Definition apply_step (step : option Z) (resp : list string) : M world item :=
  match step with
  | Some st =>
      if st =? 0 then ret (VList resp)
      else l <- pure (list_slice resp None None (Some st)) ;; ret (VList l)
  | None => ret (VList resp)
  end.

(** The reply to a successful [misc] call that returns [items]. *)
Definition misc_reply (items : list string) : string :=
  Wire.status 0 +:+ Wire.u32 (Z.of_nat (length items))
  +:+ String.concat "" (Wire.lstr <$> items).

(** A store for examples: the server is about to answer one search with
    the keys [a], [b], [c]; query 1 has no cache, query 2 has cached the
    empty list and query 3 has cached [x], [y]. *)
Definition example_world : world :=
  {| w_sock := {| incoming := misc_reply ["a"; "b"; "c"]; outgoing := "" |};
     w_lists := {[ 1%positive := ["setorder" +:+ NUL +:+ "age" +:+ NUL +:+ "2"];
                   2%positive := [];
                   3%positive := ["x"; "y"] ]};
     w_queries := {[ 1%positive := mkQuery 9%positive 1%positive None;
                     2%positive := mkQuery 9%positive 1%positive (Some 2%positive);
                     3%positive := mkQuery 9%positive 1%positive (Some 3%positive) ]} |}.

(** The list [k1, v1, k2, v2, ...] of a sequence of pairs: the shape of a
    1.1.11 response. *)
Fixpoint interleave (ps : list (string * string)) : list string :=
  match ps with
  | [] => []
  | (k, v) :: ps' => k :: v :: interleave ps'
  end.

(** The value a requested key ends up with: that of the last pair with
    this key, [None] when no pair has it. *)
Fixpoint value_in_pairs (ps : list (string * string)) (k : string)
  : option string :=
  match ps with
  | [] => None
  | (k', v) :: ps' =>
      match value_in_pairs ps' k with
      | Some v' => Some v'
      | None => if decide (k' = k) then Some v else None
      end
  end.

(** [d[k] = v] for a pair [(k, v)]. *)
Definition insert_pair (d : gmap string string) (p : string * string)
  : gmap string string := <[p.1 := p.2]> d.

(** A computation after which no more bytes are pending than before. *)
Definition only_consumes {A} (m : M sock A) : Prop :=
  forall s,
    (String.length (incoming (snd (m s))) <= String.length (incoming s))%nat.

(** A key/value pair as [mget] receives it: both lengths, then both
    strings. *)
Definition wire_pair (p : string * string) : string :=
  Wire.u32 (Bytes.len p.1) +:+ Wire.u32 (Bytes.len p.2) +:+ p.1 +:+ p.2.

(** The reply to a successful [mget] that returns [pairs]. *)
Definition mget_reply (pairs : list (string * string)) : string :=
  Wire.status 0 +:+ Wire.u32 (Z.of_nat (length pairs))
  +:+ String.concat "" (wire_pair <$> pairs).

(** The first bytes of every frame: the magic byte and the opcode. *)
Definition frame_head (code : Z) (fields : string) : string :=
  String (Bytes.byte_of MAGIC) (String (Bytes.byte_of code) fields).

(** A byte string short enough for a 4-byte length field. *)
Definition fits32 (s : string) : Prop := Bytes.len s < 2 ^ 32.

(** [sep in s]. *)
Fixpoint occurs (sep s : string) : bool :=
  String.prefix sep s
  || match s with
     | EmptyString => false
     | String _ s' => occurs sep s'
     end.

(** [c in s] for one byte. *)
Fixpoint has_byte (c : ascii) (s : string) : bool :=
  match s with
  | EmptyString => false
  | String c' s' => Ascii.eqb c' c || has_byte c s'
  end.

(** A name and a value that can stand on one line of the [stat] report:
    no tab in the name, no line end in either. *)
Definition stat_pair_ok (p : string * string) : Prop :=
  has_byte TAB p.1 = false /\ has_byte LF p.1 = false /\
  has_byte CR p.1 = false /\ has_byte LF p.2 = false /\
  has_byte CR p.2 = false.

(** The [stat] report of the server: one line [name TAB value LF] per
    entry. *)
Fixpoint stat_report (ps : list (string * string)) : string :=
  match ps with
  | [] => ""
  | (k, v) :: ps' => k +:+ String TAB v +:+ String LF (stat_report ps')
  end.


(** * Properties *)

(** ** Byte strings *)

Section BytesFacts.

Lemma append_nil_l (s : string) : "" +:+ s = s.
Proof. reflexivity. Qed.

Lemma append_cons (c : ascii) (s t : string) :
  String c s +:+ t = String c (s +:+ t).
Proof. reflexivity. Qed.

Lemma append_nil_r (s : string) : s +:+ "" = s.
Proof.
  induction s as [|c s IH]; [reflexivity |].
  rewrite append_cons. now rewrite IH.
Qed.

Lemma append_assoc (a b c : string) : (a +:+ b) +:+ c = a +:+ (b +:+ c).
Proof.
  induction a as [|x a IH]; [reflexivity |].
  rewrite !append_cons. now rewrite IH.
Qed.

Lemma length_append (a b : string) :
  String.length (a +:+ b) = (String.length a + String.length b)%nat.
Proof.
  induction a as [|x a IH]; [reflexivity |].
  rewrite append_cons. simpl. now rewrite IH.
Qed.

Lemma len_append (a b : string) : Bytes.len (a +:+ b) = Bytes.len a + Bytes.len b.
Proof. unfold Bytes.len. rewrite length_append. lia. Qed.

Lemma len_nonneg (s : string) : 0 <= Bytes.len s.
Proof. unfold Bytes.len. lia. Qed.

Lemma length_take (n : nat) (s : string) :
  String.length (Bytes.take n s) = Nat.min n (String.length s).
Proof.
  revert s; induction n as [|n IH]; intros [|c s]; simpl; try reflexivity.
  now rewrite IH.
Qed.

Lemma length_drop (n : nat) (s : string) :
  String.length (Bytes.drop n s) = (String.length s - n)%nat.
Proof.
  revert s; induction n as [|n IH]; intros [|c s]; simpl; try reflexivity.
  apply IH.
Qed.

Lemma take_all (n : nat) (s : string) :
  (String.length s <= n)%nat -> Bytes.take n s = s.
Proof.
  revert s; induction n as [|n IH]; intros [|c s]; simpl; intros H;
    try reflexivity; try lia.
  f_equal. apply IH. lia.
Qed.

Lemma drop_all (n : nat) (s : string) :
  (String.length s <= n)%nat -> Bytes.drop n s = "".
Proof.
  revert s; induction n as [|n IH]; intros [|c s]; simpl; intros H;
    try reflexivity; try lia.
  apply IH. lia.
Qed.

Lemma take_add (a b : nat) (s : string) :
  Bytes.take (a + b) s = Bytes.take a s +:+ Bytes.take b (Bytes.drop a s).
Proof.
  revert s; induction a as [|a IH]; intros s; simpl.
  - reflexivity.
  - destruct s as [|c s]; simpl.
    + now destruct b.
    + rewrite append_cons. now rewrite IH.
Qed.

Lemma drop_add (a b : nat) (s : string) :
  Bytes.drop (a + b) s = Bytes.drop b (Bytes.drop a s).
Proof.
  revert s; induction a as [|a IH]; intros s; simpl.
  - reflexivity.
  - destruct s as [|c s]; simpl; [now destruct b | apply IH].
Qed.

Lemma take_append (a b : string) : Bytes.take (String.length a) (a +:+ b) = a.
Proof.
  induction a as [|c a IH]; [now destruct b |].
  rewrite append_cons. simpl. now rewrite IH.
Qed.

Lemma drop_append (a b : string) : Bytes.drop (String.length a) (a +:+ b) = b.
Proof.
  induction a as [|c a IH]; [reflexivity |].
  rewrite append_cons. simpl. apply IH.
Qed.

Lemma ord_byte_of (i : Z) : 0 <= i < 256 -> Bytes.ord (Bytes.byte_of i) = i.
Proof.
  intros H. unfold Bytes.ord, Bytes.byte_of.
  rewrite N_ascii_embedding; lia.
Qed.

Lemma ord_range (c : ascii) : 0 <= Bytes.ord c < 256.
Proof.
  unfold Bytes.ord. pose proof (N_ascii_bounded c). lia.
Qed.

End BytesFacts.

(** ** Big-endian fields *)

Section StructFacts.

Lemma length_be_bytes (n : nat) (v : Z) : String.length (Struct.be_bytes n v) = n.
Proof. induction n as [|n IH]; simpl; [reflexivity | now rewrite IH]. Qed.

Lemma lor_shiftl_byte (acc b : Z) :
  0 <= b < 256 -> Z.lor (Z.shiftl acc 8) b = acc * 256 + b.
Proof.
  intros Hb.
  assert (Hland : Z.land (Z.shiftl acc 8) b = 0).
  { apply Z.bits_inj'. intros n Hn.
    rewrite Z.land_spec, Z.bits_0, Z.shiftl_spec by lia.
    destruct (Z.ltb_spec n 8) as [Hlt|Hge].
    - rewrite Z.testbit_neg_r by lia. reflexivity.
    - rewrite (Z.bits_above_log2 b n); [apply andb_false_r | lia |].
      destruct (Z.eq_dec b 0) as [->|Hnz]; [simpl; lia |].
      apply Z.log2_lt_pow2; [lia |].
      apply Z.lt_le_trans with (2 ^ 8); [lia |].
      apply Z.pow_le_mono_r; lia. }
  rewrite <- Z.lxor_lor by exact Hland.
  rewrite <- Z.add_nocarry_lxor by exact Hland.
  rewrite Z.shiftl_mul_pow2 by lia. reflexivity.
Qed.

Lemma be_value_acc_be_bytes (n : nat) (acc v : Z) :
  0 <= v ->
  Struct.be_value_acc acc (Struct.be_bytes n v)
  = acc * 2 ^ (8 * Z.of_nat n) + v mod 2 ^ (8 * Z.of_nat n).
Proof.
  intros Hv. revert acc. induction n as [|n IH]; intros acc.
  - simpl. rewrite Z.mod_1_r. lia.
  - cbn [Struct.be_bytes Struct.be_value_acc].
    rewrite Z.shiftr_div_pow2 by lia.
    change 255 with (Z.ones 8). rewrite Z.land_ones by lia.
    change (2 ^ 8) with 256.
    set (p := 2 ^ (8 * Z.of_nat n)).
    assert (Hp : 0 < p) by (apply Z.pow_pos_nonneg; lia).
    assert (Hb : 0 <= (v / p) mod 256 < 256) by (apply Z.mod_pos_bound; lia).
    rewrite ord_byte_of by exact Hb.
    rewrite lor_shiftl_byte by exact Hb.
    rewrite IH. fold p.
    replace (2 ^ (8 * Z.of_nat (S n))) with (p * 256).
    2:{ unfold p. replace (8 * Z.of_nat (S n)) with (8 * Z.of_nat n + 8) by lia.
        rewrite Z.pow_add_r by lia. reflexivity. }
    rewrite (Z.rem_mul_r v p 256) by lia. ring.
Qed.

(** Decoding what [be_bytes] wrote gives the value back. *)
Lemma be_value_be_bytes (n : nat) (v : Z) :
  0 <= v < 2 ^ (8 * Z.of_nat n) ->
  Struct.be_value (Struct.be_bytes n v) = v.
Proof.
  intros H. unfold Struct.be_value.
  rewrite be_value_acc_be_bytes by lia.
  rewrite Z.mod_small by lia. lia.
Qed.

End StructFacts.

(** ** Transport *)

Section TransportFacts.

Lemma take_S_empty (n : nat) (s : string) : Bytes.take (S n) s = "" -> s = "".
Proof. destruct s; simpl; [reflexivity | discriminate]. Qed.

(** What the receive loop does with the pending bytes: it hands over the
    [bytes - len d] bytes still missing when they are there, and waits for
    ever, the queue drained, when they are not. *)
Lemma sockrecv_loop_spec (fuel : nat) (bytes : Z) (d : string) (s : sock) :
  bytes - Bytes.len d <= Z.of_nat fuel ->
  sockrecv_loop fuel bytes d s =
    let need := Z.to_nat (bytes - Bytes.len d) in
    if bytes - Bytes.len d <=? Bytes.len (incoming s)
    then (Ok (d +:+ Bytes.take need (incoming s)),
          {| incoming := Bytes.drop need (incoming s); outgoing := outgoing s |})
    else (Stall, {| incoming := ""; outgoing := outgoing s |}).
Proof.
  revert d s. induction fuel as [|fuel IH]; intros d [inc out] Hfuel;
    cbn [sockrecv_loop incoming outgoing]; cbv zeta.
  - destruct (Z.ltb_spec (Bytes.len d) bytes) as [Hlt|Hge]; [lia |].
    pose proof (len_nonneg inc).
    destruct (Z.leb_spec (bytes - Bytes.len d) (Bytes.len inc)); [| lia].
    replace (Z.to_nat (bytes - Bytes.len d)) with O by lia.
    unfold ret. simpl. now rewrite append_nil_r.
  - destruct (Z.ltb_spec (Bytes.len d) bytes) as [Hlt|Hge].
    + unfold bind, recv. cbn [incoming outgoing].
      set (c := Z.to_nat (Z.min 8192 (bytes - Bytes.len d))).
      assert (Hc : (1 <= c)%nat) by (unfold c; lia).
      destruct (Bytes.take c inc) as [|x chunk] eqn:Echunk.
      * destruct c as [|c']; [lia |].
        apply take_S_empty in Echunk. subst inc.
        unfold stall. simpl.
        destruct (Z.leb_spec (bytes - Bytes.len d) (Bytes.len "")) as [Hle|_];
          [change (Bytes.len "") with 0 in Hle; lia | reflexivity].
      * rewrite <- Echunk.
        assert (Hlen : String.length (Bytes.take c inc)
                       = Nat.min c (String.length inc)) by apply length_take.
        assert (Hpos : (1 <= String.length (Bytes.take c inc))%nat)
          by (rewrite Echunk; simpl; lia).
        assert (Hdrop : String.length (Bytes.drop c inc)
                        = (String.length inc - c)%nat) by apply length_drop.
        rewrite IH; cbn [incoming outgoing]; cbv zeta;
          rewrite len_append; unfold Bytes.len in *; [| lia].
        destruct (Nat.le_gt_cases c (String.length inc)) as [Hfit|Hshort].
        -- (* the chunk is a full one *)
           destruct (Z.leb_spec (bytes - Z.of_nat (String.length d))
                                (Z.of_nat (String.length inc)));
           destruct (Z.leb_spec
                       (bytes - (Z.of_nat (String.length d)
                                 + Z.of_nat (String.length (Bytes.take c inc))))
                       (Z.of_nat (String.length (Bytes.drop c inc))));
           try lia; try reflexivity.
           set (need' := Z.to_nat
                           (bytes - (Z.of_nat (String.length d)
                                     + Z.of_nat (String.length (Bytes.take c inc))))).
           replace (Z.to_nat (bytes - Z.of_nat (String.length d)))
             with (c + need')%nat by (unfold need'; lia).
           rewrite take_add, drop_add, append_assoc. reflexivity.
        -- (* the chunk is all there was, and it is not enough *)
           destruct (Z.leb_spec (bytes - Z.of_nat (String.length d))
                                (Z.of_nat (String.length inc)));
           destruct (Z.leb_spec
                       (bytes - (Z.of_nat (String.length d)
                                 + Z.of_nat (String.length (Bytes.take c inc))))
                       (Z.of_nat (String.length (Bytes.drop c inc))));
           try lia; reflexivity.
    + pose proof (len_nonneg inc).
      destruct (Z.leb_spec (bytes - Bytes.len d) (Bytes.len inc)); [| lia].
      replace (Z.to_nat (bytes - Bytes.len d)) with O by lia.
      unfold ret. simpl. now rewrite append_nil_r.
Qed.

(** [sockrecv(sock, bytes)] returns exactly the next [bytes] bytes, or never
    returns when fewer are to come. *)
Lemma sockrecv_spec (bytes : Z) (s : sock) :
  sockrecv bytes s =
    if bytes <=? Bytes.len (incoming s)
    then (Ok (Bytes.take (Z.to_nat bytes) (incoming s)),
          {| incoming := Bytes.drop (Z.to_nat bytes) (incoming s);
             outgoing := outgoing s |})
    else (Stall, {| incoming := ""; outgoing := outgoing s |}).
Proof.
  unfold sockrecv. rewrite sockrecv_loop_spec.
  - cbv zeta. change (Bytes.len "") with 0. rewrite Z.sub_0_r.
    rewrite append_nil_l. reflexivity.
  - change (Bytes.len "") with 0. lia.
Qed.

Lemma sockrecv_exact (d rest out : string) :
  sockrecv (Bytes.len d) {| incoming := d +:+ rest; outgoing := out |}
  = (Ok d, {| incoming := rest; outgoing := out |}).
Proof.
  rewrite sockrecv_spec. cbn [incoming outgoing].
  rewrite len_append. pose proof (len_nonneg rest).
  destruct (Z.leb_spec (Bytes.len d) (Bytes.len d + Bytes.len rest)); [| lia].
  unfold Bytes.len. rewrite Nat2Z.id, take_append, drop_append. reflexivity.
Qed.

End TransportFacts.


Section ReadFacts.

Lemma reads_only_ret {A} (a : A) : reads_only (ret a).
Proof. intros s. reflexivity. Qed.

Lemma reads_only_raise {A} (e : exn) : reads_only (@raise sock A e).
Proof. intros s. reflexivity. Qed.

Lemma reads_only_pure {A} (o : outcome A) : reads_only (pure o).
Proof. intros s. reflexivity. Qed.

Lemma reads_only_bind {A B} (m : M sock A) (k : A -> M sock B) :
  reads_only m -> (forall a, reads_only (k a)) -> reads_only (bind m k).
Proof.
  intros Hm Hk s. unfold bind. specialize (Hm s).
  destruct (m s) as [[a|e|] s']; simpl in *; try exact Hm.
  rewrite Hk. exact Hm.
Qed.

Lemma reads_only_try_finally {A B} (body : M sock A) (fin : M sock B) :
  reads_only body -> reads_only fin -> reads_only (try_finally body fin).
Proof.
  intros Hb Hf s. unfold try_finally. specialize (Hb s).
  destruct (body s) as [[a|e|] s']; simpl in *; try exact Hb.
  - rewrite Hf. exact Hb.
  - specialize (Hf s'). destruct (fin s') as [[b|e'|] s'']; simpl in *; congruence.
Qed.

Lemma reads_only_sockrecv (bytes : Z) : reads_only (sockrecv bytes).
Proof.
  intros s. rewrite sockrecv_spec.
  destruct (bytes <=? Bytes.len (incoming s)); reflexivity.
Qed.

Lemma reads_only_socksuccess : reads_only socksuccess.
Proof.
  apply reads_only_bind; [apply reads_only_sockrecv |].
  intros [|c [|c' d]]; try apply reads_only_raise.
  cbv zeta. destruct (Bytes.ord c =? 0);
    [apply reads_only_ret | apply reads_only_raise].
Qed.

Lemma reads_only_socklen : reads_only socklen.
Proof.
  apply reads_only_bind; [apply reads_only_sockrecv |].
  intros d. apply reads_only_pure.
Qed.

Lemma reads_only_socklong : reads_only socklong.
Proof.
  apply reads_only_bind; [apply reads_only_sockrecv |].
  intros d. apply reads_only_pure.
Qed.

Lemma reads_only_sockstr : reads_only sockstr.
Proof.
  apply reads_only_bind; [apply reads_only_socklen |].
  intros n. apply reads_only_sockrecv.
Qed.

Lemma reads_only_sockdouble : reads_only sockdouble.
Proof.
  apply reads_only_bind; [apply reads_only_sockrecv |].
  intros d. apply reads_only_bind; [apply reads_only_pure |].
  intros [|a [|b [|c vs]]]; try apply reads_only_raise. apply reads_only_ret.
Qed.

Lemma reads_only_sockstrpair : reads_only sockstrpair.
Proof.
  repeat (apply reads_only_bind;
          [first [apply reads_only_socklen | apply reads_only_sockrecv] | intros ?]).
  apply reads_only_ret.
Qed.

Lemma reads_only_repeatM {A} (n : nat) (m : M sock A) :
  reads_only m -> reads_only (repeatM n m).
Proof.
  intros Hm. induction n as [|n IH]; simpl.
  - apply reads_only_ret.
  - apply reads_only_bind; [exact Hm | intros x].
    apply reads_only_bind; [exact IH | intros xs]. apply reads_only_ret.
Qed.

(** A command that packs its frame, sends it and then only reads has
    written exactly that frame. *)
Lemma command_writes_frame {A} (frame : outcome (list string))
      (f : list string) (rest : M sock A) (s : sock) :
  frame = Ok f -> reads_only rest ->
  outgoing (snd ((x <- pure frame ;; socksend x ;;; rest) s))
  = outgoing s +:+ Bytes.join f.
Proof.
  intros -> Hrest. unfold bind, pure, socksend, sendall. simpl.
  rewrite Hrest. reflexivity.
Qed.

(** The status byte: zero lets the command go on, anything else is raised
    as [TyrantError] with that byte as its code; one byte is consumed. *)
Lemma socksuccess_status (c : ascii) (rest out : string) :
  socksuccess {| incoming := String c rest; outgoing := out |}
  = (if Bytes.ord c =? 0 then Ok tt else Raise (TyrantError (Bytes.ord c)),
     {| incoming := rest; outgoing := out |}).
Proof.
  unfold socksuccess, bind. rewrite sockrecv_spec. cbn [incoming outgoing].
  assert (H : 1 <= Bytes.len (String c rest))
    by (unfold Bytes.len; simpl; lia).
  destruct (Z.leb_spec 1 (Bytes.len (String c rest))); [| lia].
  change (Z.to_nat 1) with 1%nat. simpl.
  destruct (Bytes.ord c =? 0); reflexivity.
Qed.

Lemma unpack_first_I (d : string) :
  String.length d = 4%nat -> unpack_first ">I" d = Ok (Struct.be_value d).
Proof.
  intros H. unfold unpack_first, Struct.unpack.
  change (Ascii.eqb ">" ">") with true. cbv iota.
  unfold Struct.unpack_fields.
  change (Struct.width "I") with (Some 4%nat). cbv iota.
  rewrite H, (drop_all 4 d), (take_all 4 d) by lia. reflexivity.
Qed.

Lemma unpack_first_Q (d : string) :
  String.length d = 8%nat -> unpack_first ">Q" d = Ok (Struct.be_value d).
Proof.
  intros H. unfold unpack_first, Struct.unpack.
  change (Ascii.eqb ">" ">") with true. cbv iota.
  unfold Struct.unpack_fields.
  change (Struct.width "Q") with (Some 8%nat). cbv iota.
  rewrite H, (drop_all 8 d), (take_all 8 d) by lia. reflexivity.
Qed.

(** Four bytes are read as a count, whatever they are. *)
Lemma socklen_bytes (d rest out : string) :
  String.length d = 4%nat ->
  socklen {| incoming := d +:+ rest; outgoing := out |}
  = (Ok (Struct.be_value d), {| incoming := rest; outgoing := out |}).
Proof.
  intros H. unfold socklen, bind.
  replace 4 with (Bytes.len d) by (unfold Bytes.len; lia).
  rewrite sockrecv_exact. unfold pure. now rewrite unpack_first_I.
Qed.

Lemma socklen_u32 (v : Z) (rest out : string) :
  0 <= v < 2 ^ 32 ->
  socklen {| incoming := Wire.u32 v +:+ rest; outgoing := out |}
  = (Ok v, {| incoming := rest; outgoing := out |}).
Proof.
  intros H. unfold Wire.u32.
  rewrite socklen_bytes by apply length_be_bytes.
  rewrite be_value_be_bytes; [reflexivity | exact H].
Qed.

Lemma sockstr_lstr (k rest out : string) :
  Bytes.len k < 2 ^ 32 ->
  sockstr {| incoming := Wire.lstr k +:+ rest; outgoing := out |}
  = (Ok k, {| incoming := rest; outgoing := out |}).
Proof.
  intros H. unfold sockstr, bind, Wire.lstr. rewrite append_assoc.
  rewrite socklen_u32 by (pose proof (len_nonneg k); lia).
  apply sockrecv_exact.
Qed.

End ReadFacts.

(** ** Request frames *)

Section FrameFacts.

Lemma pack_fields_field (c : ascii) (w : nat) (fmt : string) (v : Z)
      (vals : list Z) :
  Struct.width c = Some w ->
  0 <= v < 2 ^ (8 * Z.of_nat w) ->
  Struct.pack_fields (String c fmt) (v :: vals)
  = obind (Struct.pack_fields fmt vals)
          (fun s => Ok (Struct.be_bytes w v +:+ s)).
Proof.
  intros Hw Hv. cbn [Struct.pack_fields]. rewrite Hw.
  destruct (Z.leb_spec 0 v); [| lia].
  destruct (Z.ltb_spec v (2 ^ (8 * Z.of_nat w))); [| lia].
  reflexivity.
Qed.

Lemma be_bytes_1 (v : Z) :
  0 <= v < 256 -> Struct.be_bytes 1 v = String (Bytes.byte_of v) "".
Proof.
  intros H. cbn [Struct.be_bytes]. f_equal. f_equal.
  change (8 * Z.of_nat 0) with 0. rewrite Z.shiftr_0_r.
  change 255 with (Z.ones 8). rewrite Z.land_ones by lia.
  apply Z.mod_small. lia.
Qed.

Lemma join_2 (a b : string) : Bytes.join [a; b] = a +:+ b.
Proof. reflexivity. Qed.

End FrameFacts.

(** Packs a frame whose fields are in range: every field becomes its
    big-endian bytes. *)
Ltac pack_frame :=
  unfold Struct.pack; change (Ascii.eqb ">" ">") with true; cbv iota;
  repeat (erewrite pack_fields_field;
          [| reflexivity
           | change (8 * Z.of_nat 1) with 8; change (8 * Z.of_nat 4) with 32;
             change (8 * Z.of_nat 8) with 64;
             first [lia | now vm_compute]]);
  cbn [Struct.pack_fields obind].

Section RestoreFrame.

Variables (path : string) (msec : Z).
Hypothesis path_fits : Bytes.len path < 2 ^ 32.
Hypothesis msec_fits : 0 <= msec < 2 ^ 64.

Lemma _t1R_copy_frame :
  _t1R C.copy path msec
  = Ok [ String (Bytes.byte_of MAGIC)
           (String (Bytes.byte_of C.copy)
              (Wire.u32 (Bytes.len path) +:+ Wire.u64 msec));
         path ].
Proof.
  pose proof (len_nonneg path).
  unfold _t1R. pack_frame. rewrite append_nil_r. reflexivity.
Qed.

End RestoreFrame.

Lemma _t1_copy_frame (path : string) :
  Bytes.len path < 2 ^ 32 ->
  _t1 C.copy path
  = Ok [ String (Bytes.byte_of MAGIC)
           (String (Bytes.byte_of C.copy) (Wire.u32 (Bytes.len path)));
         path ].
Proof.
  intros Hpath. pose proof (len_nonneg path).
  unfold _t1. pack_frame. rewrite append_nil_r. reflexivity.
Qed.

(** ** The restore frame *)

(** C9: for a path whose length fits the 4-byte field and a millisecond
    timestamp that fits the 8-byte field, [restore] writes the magic byte,
    then the opcode [C.copy] -- the very byte [copy] sends, not [C.restore] --
    then the path length as 4 big-endian bytes, then the timestamp as 8
    big-endian bytes, then the path. *)
Theorem restore_frame_reuses_copy_opcode (path : string) (msec : Z) (s : sock) :
  Bytes.len path < 2 ^ 32 ->
  0 <= msec < 2 ^ 64 ->
  outgoing (snd (Tyrant.restore path msec s))
  = outgoing s +:+
    String (Bytes.byte_of MAGIC)
      (String (Bytes.byte_of C.copy)
         (Wire.u32 (Bytes.len path) +:+ Wire.u64 msec +:+ path))
  /\ outgoing (snd (Tyrant.copy path s))
     = outgoing s +:+
       String (Bytes.byte_of MAGIC)
         (String (Bytes.byte_of C.copy) (Wire.u32 (Bytes.len path) +:+ path))
  /\ Bytes.byte_of C.copy <> Bytes.byte_of C.restore
  /\ String.length (Wire.u32 (Bytes.len path)) = 4%nat
  /\ Struct.be_value (Wire.u32 (Bytes.len path)) = Bytes.len path
  /\ String.length (Wire.u64 msec) = 8%nat
  /\ Struct.be_value (Wire.u64 msec) = msec.
Proof.
  intros Hpath Hmsec. pose proof (len_nonneg path) as Hnn.
  split; [| split; [| split; [| split; [| split; [| split]]]]].
  - unfold Tyrant.restore.
    rewrite (command_writes_frame _ _ _ _ (_t1R_copy_frame path msec Hpath Hmsec))
      by apply reads_only_socksuccess.
    rewrite join_2, !append_cons, append_assoc. reflexivity.
  - unfold Tyrant.copy.
    rewrite (command_writes_frame _ _ _ _ (_t1_copy_frame path Hpath))
      by apply reads_only_socksuccess.
    rewrite join_2, !append_cons. reflexivity.
  - discriminate.
  - apply length_be_bytes.
  - apply be_value_be_bytes. change (8 * Z.of_nat 4) with 32. lia.
  - apply length_be_bytes.
  - apply be_value_be_bytes. change (8 * Z.of_nat 8) with 64. lia.
Qed.

Lemma restore_frame_witness :
  outgoing (snd (Tyrant.restore "/tmp/db" 1234567890123 (Sock "" "")))
  = String (Bytes.byte_of 200)
      (String (Bytes.byte_of 114)
         (Wire.u32 7 +:+ Wire.u64 1234567890123 +:+ "/tmp/db")).
Proof.
  exact (proj1 (restore_frame_reuses_copy_opcode
                  "/tmp/db" 1234567890123 (Sock "" "")
                  ltac:(vm_compute; reflexivity)
                  ltac:(split; vm_compute; [discriminate | reflexivity]))).
Defined.

(** ** The status byte *)

Section StatusByte.

Variables (code : ascii) (rest out : string).
Hypothesis failed : Bytes.ord code <> 0.

(** A command that sends its frame and checks the status has consumed the
    status byte alone when it raises. *)
Lemma send_status_fails (frame : outcome (list string)) (f : list string) :
  frame = Ok f ->
  (x <- pure frame ;; socksend x ;;; socksuccess)
    {| incoming := String code rest; outgoing := out |}
  = (Raise (TyrantError (Bytes.ord code)),
     {| incoming := rest; outgoing := out +:+ Bytes.join f |}).
Proof using failed.
  intros ->. unfold bind, pure, socksend, sendall. cbn [incoming outgoing].
  rewrite socksuccess_status.
  destruct (Z.eqb_spec (Bytes.ord code) 0); [contradiction | reflexivity].
Qed.

(** The same for a command that would go on decoding a payload. *)
Lemma send_status_fails_before {A} (frame : outcome (list string))
      (f : list string) (decode : M sock A) :
  frame = Ok f ->
  (x <- pure frame ;; socksend x ;;; socksuccess ;;; decode)
    {| incoming := String code rest; outgoing := out |}
  = (Raise (TyrantError (Bytes.ord code)),
     {| incoming := rest; outgoing := out +:+ Bytes.join f |}).
Proof using failed.
  intros ->. unfold bind, pure, socksend, sendall. cbn [incoming outgoing].
  rewrite socksuccess_status.
  destruct (Z.eqb_spec (Bytes.ord code) 0); [contradiction | reflexivity].
Qed.

(** [misc] reads the record count in its [finally] clause before the
    error leaves the method. *)
Lemma misc_status_fails (func : string) (opts : Z) (args f : list string)
      (count : string) :
  _t1FN C.misc func opts args = Ok f ->
  String.length count = 4%nat ->
  Tyrant.misc func opts args
    {| incoming := String code (count +:+ rest); outgoing := out |}
  = (Raise (TyrantError (Bytes.ord code)),
     {| incoming := rest; outgoing := out +:+ Bytes.join f |}).
Proof using failed.
  intros Hf Hcount. unfold Tyrant.misc, bind, pure, socksend, sendall.
  rewrite Hf. cbn [incoming outgoing].
  unfold try_finally. rewrite socksuccess_status.
  destruct (Z.eqb_spec (Bytes.ord code) 0); [contradiction |].
  rewrite socklen_bytes by exact Hcount. reflexivity.
Qed.

End StatusByte.

Lemma bind_raises {S A B} (m : M S A) (k : A -> M S B) (s s' : S) (e : exn) :
  m s = (Raise e, s') -> bind m k s = (Raise e, s').
Proof. intros H. unfold bind. now rewrite H. Qed.

(** C2, as the code has it: when the status byte of the reply is not zero,
    every command but [misc] raises [TyrantError] with that byte as its code
    and has read nothing after it; [misc] reads the four bytes of the record
    count as well and then raises the same error. *)
Theorem nonzero_status_raises_TyrantError
        (c : call) (f : list string) (code : ascii) (rest out : string) :
  frame_of c = Ok f ->
  Bytes.ord code <> 0 ->
  match c with
  | DoMisc _ _ _ =>
      forall count : string,
        String.length count = 4%nat ->
        run c {| incoming := String code (count +:+ rest); outgoing := out |}
        = (Raise (TyrantError (Bytes.ord code)),
           {| incoming := rest; outgoing := out +:+ Bytes.join f |})
  | _ =>
      run c {| incoming := String code rest; outgoing := out |}
      = (Raise (TyrantError (Bytes.ord code)),
         {| incoming := rest; outgoing := out +:+ Bytes.join f |})
  end.
Proof.
  intros Hf Hcode.
  destruct c; cbn [frame_of] in Hf; cbn [run];
    try (apply bind_raises;
         first [ apply (send_status_fails code rest out Hcode _ f Hf)
               | apply (send_status_fails_before code rest out Hcode _ f _ Hf) ]).
  intros count Hcount. apply bind_raises.
  now apply misc_status_fails.
Qed.

Lemma nonzero_status_witness :
  run (DoGet "k") {| incoming := Wire.status 1 +:+ "tail"; outgoing := "" |}
  = (Raise (TyrantError 1),
     {| incoming := "tail";
        outgoing := String (Bytes.byte_of 200)
                      (String (Bytes.byte_of 48) (Wire.u32 1 +:+ "k")) |}).
Proof.
  exact (nonzero_status_raises_TyrantError
           (DoGet "k") _ (Bytes.byte_of 1) "tail" ""
           ltac:(vm_compute; reflexivity) ltac:(vm_compute; discriminate)).
Defined.

(** C2 as stated fails for [misc]: after a status byte of 1 the four bytes
    that follow are gone from the connection, and when they never come the
    call does not end with the protocol error at all. *)
Lemma misc_reads_past_failed_status :
  let s := {| incoming := Wire.status 1 +:+ Wire.u32 0 +:+ "tail";
              outgoing := "" |} in
  let r := Tyrant.misc "getlist" 0 ["k"] s in
  fst r = Raise (TyrantError 1)
  /\ incoming (snd r) = "tail"
  /\ incoming (snd r) <> Wire.u32 0 +:+ "tail"
  /\ fst (Tyrant.misc "getlist" 0 ["k"]
            {| incoming := Wire.status 1; outgoing := "" |}) = Stall.
Proof. repeat split; vm_compute; (reflexivity || discriminate). Qed.

(** ** Iterating over the keys *)

Section IterKeys.

Lemma status_0_append (rest : string) :
  Wire.status 0 +:+ rest = String (Bytes.byte_of 0) rest.
Proof. reflexivity. Qed.

Lemma iterinit_ok (rest out : string) :
  Tyrant.iterinit {| incoming := Wire.status 0 +:+ rest; outgoing := out |}
  = (Ok tt, {| incoming := rest; outgoing := out +:+ frame0 C.iterinit |}).
Proof.
  unfold Tyrant.iterinit, bind, pure, socksend, sendall.
  change (_t0 C.iterinit) with (Ok [frame0 C.iterinit]).
  cbn [incoming outgoing]. rewrite status_0_append, socksuccess_status.
  reflexivity.
Qed.

Lemma iternext_key (k rest out : string) :
  Bytes.len k < 2 ^ 32 ->
  Tyrant.iternext
    {| incoming := Wire.status 0 +:+ Wire.lstr k +:+ rest; outgoing := out |}
  = (Ok k, {| incoming := rest; outgoing := out +:+ frame0 C.iternext |}).
Proof.
  intros Hk. unfold Tyrant.iternext, bind, pure, socksend, sendall.
  change (_t0 C.iternext) with (Ok [frame0 C.iternext]).
  cbn [incoming outgoing]. rewrite status_0_append, socksuccess_status.
  change (Bytes.ord (Bytes.byte_of 0) =? 0) with true. cbv iota.
  now rewrite sockstr_lstr.
Qed.

Variables (code : ascii) (rest : string).
Hypothesis exhausted : Bytes.ord code <> 0.

(** A turn of the loop that meets a key yields it. *)
Lemma iterkeys_turn_key (k more out : string) :
  Bytes.len k < 2 ^ 32 ->
  PyTyrant.iterkeys_turn
    {| incoming := Wire.status 0 +:+ Wire.lstr k +:+ more; outgoing := out |}
  = (Ok (Some k, PyTyrant.GenSuspended),
     {| incoming := more; outgoing := out +:+ frame0 C.iternext |}).
Proof.
  intros Hk. unfold PyTyrant.iterkeys_turn, try_except_TyrantError, bind.
  now rewrite iternext_key.
Qed.

(** A turn of the loop that meets a failed status ends the generator
    without raising. *)
Lemma iterkeys_turn_end (out : string) :
  PyTyrant.iterkeys_turn {| incoming := String code rest; outgoing := out |}
  = (Ok (None, PyTyrant.GenFinished),
     {| incoming := rest; outgoing := out +:+ frame0 C.iternext |}).
Proof using exhausted.
  unfold PyTyrant.iterkeys_turn, try_except_TyrantError, bind at 1.
  unfold Tyrant.iternext.
  rewrite (send_status_fails_before code rest out exhausted
             (_t0 C.iternext) [frame0 C.iternext] sockstr eq_refl).
  reflexivity.
Qed.

Lemma list_of_gen_suspended (ks : list string) :
  Forall (fun k => Bytes.len k < 2 ^ 32) ks ->
  forall (fuel : nat) (out : string),
    (length ks < fuel)%nat ->
    PyTyrant.list_of_gen fuel PyTyrant.GenSuspended
      {| incoming := Wire.key_replies ks +:+ String code rest; outgoing := out |}
    = (Ok ks,
       {| incoming := rest;
          outgoing := out +:+ Wire.times (S (length ks)) (frame0 C.iternext) |}).
Proof using exhausted.
  induction 1 as [|k ks Hk Hks IH]; intros [|fuel] out Hfuel;
    cbn [length] in Hfuel; try lia.
  - cbn [PyTyrant.list_of_gen PyTyrant.iterkeys_next Wire.key_replies].
    unfold bind. rewrite append_nil_l, iterkeys_turn_end.
    cbn [Wire.times length]. now rewrite append_nil_r.
  - cbn [PyTyrant.list_of_gen PyTyrant.iterkeys_next Wire.key_replies].
    unfold bind at 1. rewrite !append_assoc, iterkeys_turn_key by exact Hk.
    unfold bind. rewrite IH by lia.
    unfold ret. cbn [Wire.times length]. now rewrite !append_assoc.
Qed.

Lemma length_key_replies (ks : list string) :
  (length ks <= String.length (Wire.key_replies ks))%nat.
Proof.
  induction ks as [|k ks IH]; cbn [Wire.key_replies length]; [lia |].
  rewrite status_0_append. cbn [String.length]. rewrite length_append. lia.
Qed.

End IterKeys.

(** *** [keys()] never runs out of turns *)

Section KeysFuel.

Lemma only_consumes_ret {A} (a : A) : only_consumes (ret a).
Proof. intros s. cbn. lia. Qed.

Lemma only_consumes_raise {A} (e : exn) : only_consumes (@raise sock A e).
Proof. intros s. cbn. lia. Qed.

Lemma only_consumes_pure {A} (o : outcome A) : only_consumes (pure o).
Proof. intros s. cbn. lia. Qed.

Lemma only_consumes_bind {A B} (m : M sock A) (k : A -> M sock B) :
  only_consumes m -> (forall a, only_consumes (k a)) -> only_consumes (bind m k).
Proof.
  intros Hm Hk s. unfold bind. specialize (Hm s).
  destruct (m s) as [[a|e|] s1]; cbn [snd] in *; try exact Hm.
  specialize (Hk a s1). lia.
Qed.

Lemma only_consumes_socksend (lst : list string) : only_consumes (socksend lst).
Proof. intros s. cbn. lia. Qed.

Lemma only_consumes_sockrecv (bytes : Z) : only_consumes (sockrecv bytes).
Proof.
  intros s. rewrite sockrecv_spec.
  destruct (bytes <=? Bytes.len (incoming s)); cbn [snd incoming].
  - rewrite length_drop. lia.
  - cbn. lia.
Qed.

Lemma only_consumes_sockstr : only_consumes sockstr.
Proof.
  apply only_consumes_bind.
  - apply only_consumes_bind; [apply only_consumes_sockrecv |].
    intros d. apply only_consumes_pure.
  - intros n. apply only_consumes_sockrecv.
Qed.

(** A status byte that was read is no longer pending. *)
Lemma socksuccess_consumes (s s1 : sock) (r : outcome unit) :
  socksuccess s = (r, s1) ->
  r <> Stall ->
  (String.length (incoming s1) < String.length (incoming s))%nat.
Proof.
  unfold socksuccess, bind. rewrite sockrecv_spec.
  destruct (Z.leb_spec 1 (Bytes.len (incoming s))) as [Hle|Hgt].
  - change (Z.to_nat 1) with 1%nat. unfold Bytes.len in Hle.
    destruct (incoming s) as [|c inc] eqn:Hinc; cbn [String.length] in *; [lia |].
    cbn [Bytes.take Bytes.drop]. destruct inc; cbn [Bytes.take];
      (destruct (Bytes.ord c =? 0); intros [= <- <-] _; cbn; lia).
  - intros [= <- <-] Hr. contradiction.
Qed.

Lemma iternext_consumes (s s1 : sock) (k : string) :
  Tyrant.iternext s = (Ok k, s1) ->
  (String.length (incoming s1) < String.length (incoming s))%nat.
Proof.
  unfold Tyrant.iternext.
  change (_t0 C.iternext) with (Ok [frame0 C.iternext]).
  unfold bind at 1. unfold pure. unfold bind at 1. unfold socksend, sendall.
  unfold bind at 1.
  set (s0 := {| incoming := incoming s; outgoing := _ |}).
  destruct (socksuccess s0) as [r s2] eqn:Hok.
  destruct r as [[]|e|]; try discriminate.
  intros Hstr.
  pose proof (socksuccess_consumes s0 s2 (Ok tt) Hok ltac:(discriminate)) as H1.
  pose proof (only_consumes_sockstr s2) as H2. rewrite Hstr in H2.
  subst s0. cbn [snd incoming] in *. lia.
Qed.

Lemma iterkeys_turn_consumes (s s1 : sock) (k : string)
      (g : PyTyrant.gen_state) :
  PyTyrant.iterkeys_turn s = (Ok (Some k, g), s1) ->
  (String.length (incoming s1) < String.length (incoming s))%nat.
Proof.
  unfold PyTyrant.iterkeys_turn, try_except_TyrantError, bind.
  destruct (Tyrant.iternext s) as [[k'|e|] s2] eqn:Hnext.
  - intros [= <- <- <-]. now apply (iternext_consumes s s2 k').
  - destruct e; discriminate.
  - discriminate.
Qed.

Lemma iterkeys_next_consumes (g g1 : PyTyrant.gen_state) (s s1 : sock)
      (k : string) :
  PyTyrant.iterkeys_next g s = (Ok (Some k, g1), s1) ->
  (String.length (incoming s1) < String.length (incoming s))%nat.
Proof.
  destruct g; cbn [PyTyrant.iterkeys_next].
  - unfold bind. destruct (Tyrant.iterinit s) as [[[]|e|] s2] eqn:Hinit;
      try discriminate.
    intros Hturn. apply iterkeys_turn_consumes in Hturn.
    assert (Hle : only_consumes Tyrant.iterinit).
    { unfold Tyrant.iterinit.
      apply only_consumes_bind; [apply only_consumes_pure | intros f].
      apply only_consumes_bind; [apply only_consumes_socksend | intros _].
      apply only_consumes_bind; [apply only_consumes_sockrecv | intros d].
      destruct d as [|c [|c' d]]; try apply only_consumes_raise.
      cbv zeta. destruct (Bytes.ord c =? 0);
        [apply only_consumes_ret | apply only_consumes_raise]. }
    specialize (Hle s). rewrite Hinit in Hle. cbn [snd] in Hle. lia.
  - apply iterkeys_turn_consumes.
  - discriminate.
Qed.

(** Turns beyond the number of pending bytes are never needed: [keys()]
    is the generator run until it stops, whatever the server sends. *)
Lemma list_of_gen_enough (fuel : nat) :
  forall (fuel' : nat) (g : PyTyrant.gen_state) (s : sock),
    (String.length (incoming s) < fuel)%nat ->
    (String.length (incoming s) < fuel')%nat ->
    PyTyrant.list_of_gen fuel g s = PyTyrant.list_of_gen fuel' g s.
Proof.
  induction fuel as [|fuel IH]; intros [|fuel'] g s Hfuel Hfuel'; try lia.
  cbn [PyTyrant.list_of_gen]. unfold bind at 1 3.
  destruct (PyTyrant.iterkeys_next g s) as [[[[k|] g1]|e|] s1] eqn:Hnext;
    try reflexivity.
  apply iterkeys_next_consumes in Hnext.
  unfold bind. rewrite (IH fuel' g1 s1) by lia. reflexivity.
Qed.

End KeysFuel.

(** C8: when the server answers [iterinit] with success, then [iternext]
    with the keys [ks] one by one, and then with a failed status, [keys()]
    (the generator of [iterkeys()] run to its end) has sent one [iterinit]
    and [length ks + 1] [iternext] frames and returns exactly [ks]: the last
    [TyrantError] ends the iteration instead of reaching the caller. *)
Theorem iterkeys_stops_at_exhaustion
        (ks : list string) (code : ascii) (rest out : string) :
  Forall (fun k => Bytes.len k < 2 ^ 32) ks ->
  Bytes.ord code <> 0 ->
  PyTyrant.keys
    {| incoming := Wire.status 0 +:+ Wire.key_replies ks +:+ String code rest;
       outgoing := out |}
  = (Ok ks,
     {| incoming := rest;
        outgoing := out +:+ frame0 C.iterinit
                    +:+ Wire.times (S (length ks)) (frame0 C.iternext) |}).
Proof.
  intros Hks Hcode. unfold PyTyrant.keys. cbn [incoming].
  set (fuel := String.length _).
  assert (Hfuel : (length ks < S fuel)%nat).
  { unfold fuel. rewrite status_0_append. cbn [String.length].
    rewrite length_append. pose proof (length_key_replies ks). lia. }
  change (2 + fuel)%nat with (S (S fuel)).
  rewrite <- (append_assoc out).
  rewrite <- (list_of_gen_suspended code rest Hcode ks Hks (S (S fuel))
                (out +:+ frame0 C.iterinit)) by lia.
  cbn [PyTyrant.list_of_gen PyTyrant.iterkeys_next].
  unfold bind at 1 3. unfold bind at 1. rewrite iterinit_ok. reflexivity.
Qed.

Lemma iterkeys_witness :
  PyTyrant.keys
    {| incoming := Wire.status 0 +:+ Wire.key_replies ["a"; "bc"]
                   +:+ String (Bytes.byte_of 1) "tail";
       outgoing := "" |}
  = (Ok ["a"; "bc"],
     {| incoming := "tail";
        outgoing := frame0 C.iterinit +:+ Wire.times 3 (frame0 C.iternext) |}).
Proof.
  exact (iterkeys_stops_at_exhaustion ["a"; "bc"] (Bytes.byte_of 1) "tail" ""
           ltac:(repeat constructor) ltac:(vm_compute; discriminate)).
Defined.

(** ** The adddouble frame *)

(** [_tDouble] lays its arguments out in the order of its parameters:
    [integ] first, [fract] second. *)
Lemma _tDouble_frame (code : Z) (key : string) (integ fract : Z) :
  0 <= code < 256 ->
  Bytes.len key < 2 ^ 32 ->
  0 <= integ < 2 ^ 64 ->
  0 <= fract < 2 ^ 64 ->
  _tDouble code key integ fract
  = Ok [ String (Bytes.byte_of MAGIC)
           (String (Bytes.byte_of code)
              (Wire.u32 (Bytes.len key) +:+ Wire.u64 integ +:+ Wire.u64 fract));
         key ].
Proof.
  intros Hcode Hkey Hinteg Hfract. pose proof (len_nonneg key).
  unfold _tDouble. pack_frame. rewrite append_nil_r.
  rewrite (be_bytes_1 code) by lia. reflexivity.
Qed.

(** C3 at [adddouble("x", 1.5)]: [math.modf] gives the fraction 0.5 and the
    integer part 1.0, and the frame carries 500000000000 (the fraction
    scaled by 1e12) in the first 8-byte field and 1 (the integer part) in
    the second, the reverse of the order [_tDouble] and the reply use; the
    reply's fields are combined as integer part + fraction part * 1e-12. *)
Theorem adddouble_sends_fraction_first :
  PyFloat.modf 1.5 = (0.5, 1)%float
  /\ Tyrant.adddouble_frame "x" 1.5
     = Ok [ String (Bytes.byte_of MAGIC)
              (String (Bytes.byte_of C.adddouble)
                 (Wire.u32 1 +:+ Wire.u64 500000000000 +:+ Wire.u64 1));
            "x" ]
  /\ Tyrant.adddouble_frame "x" 1.5 = _tDouble C.adddouble "x" 500000000000 1
  /\ Tyrant.adddouble_frame "x" 1.5 <> _tDouble C.adddouble "x" 1 500000000000
  /\ fst (sockdouble {| incoming := Wire.u64 2 +:+ Wire.u64 250000000000;
                        outgoing := "" |}) = Ok 2.25%float.
Proof. repeat split; vm_compute; (reflexivity || discriminate). Qed.

(** ** Indexing a query *)

(** C7: a negative integer index and a slice with a negative start or stop
    fail the assertion of [__getitem__], and an index that is neither an
    integer nor a slice raises [TypeError]; in each case the connection and
    the store are left exactly as they were, so nothing was sent or read. *)
Theorem getitem_rejects_before_io (self : loc) (w : world) :
  (forall k : Z,
      k < 0 ->
      Query.__getitem__ self (KInt k) w
      = (Raise (AssertionError "Negative indexing is not supported."), w))
  /\ (forall start stop step : option Z,
         (exists v, start = Some v /\ v < 0) \/ (exists v, stop = Some v /\ v < 0) ->
         Query.__getitem__ self (KSlice start stop step) w
         = (Raise (AssertionError "Negative indexing is not supported."), w))
  /\ Query.__getitem__ self KOther w = (Raise TypeError, w).
Proof.
  split; [| split].
  - intros k Hk. unfold Query.__getitem__, Query.index_supported.
    destruct (Z.leb_spec 0 k); [lia | reflexivity].
  - intros start stop step H. unfold Query.__getitem__, Query.index_supported.
    destruct H as [(v & -> & Hv) | (v & -> & Hv)].
    + destruct (Z.leb_spec 0 v); [lia | reflexivity].
    + destruct (Z.leb_spec 0 v); [lia |].
      rewrite andb_false_r. reflexivity.
  - reflexivity.
Qed.

Lemma getitem_rejects_witness :
  let w := {| w_sock := {| incoming := "pending"; outgoing := "" |};
              w_lists := {[ 1%positive := ["c"] ]};
              w_queries := {[ 1%positive := mkQuery 9%positive 1%positive None ]} |} in
  Query.__getitem__ 1%positive (KInt (-1)) w
  = (Raise (AssertionError "Negative indexing is not supported."), w)
  /\ Query.__getitem__ 1%positive (KSlice (Some 2) (Some (-5)) None) w
     = (Raise (AssertionError "Negative indexing is not supported."), w).
Proof.
  intros w.
  destruct (getitem_rejects_before_io 1%positive w) as (Hint & Hslice & _).
  split.
  - apply Hint. lia.
  - apply Hslice. right. exists (-5). split; [reflexivity | lia].
Defined.

Section WorldFacts.

Lemma keeps_world_ret {A} (a : A) : keeps_world (ret a).
Proof. intros w. reflexivity. Qed.

Lemma keeps_world_raise {A} (e : exn) : keeps_world (@raise world A e).
Proof. intros w. reflexivity. Qed.

Lemma keeps_world_pure {A} (o : outcome A) : keeps_world (pure o).
Proof. intros w. reflexivity. Qed.

Lemma keeps_world_bind {A B} (m : M world A) (k : A -> M world B) :
  keeps_world m -> (forall a, keeps_world (k a)) -> keeps_world (bind m k).
Proof.
  intros Hm Hk w. unfold bind. specialize (Hm w).
  destruct (m w) as [[a|e|] w']; simpl in *; subst; try reflexivity.
  apply Hk.
Qed.

Lemma keeps_world_apply_step (step : option Z) (resp : list string) :
  keeps_world (apply_step step resp).
Proof.
  destruct step as [st|]; cbn [apply_step]; [| apply keeps_world_ret].
  destruct (st =? 0); [apply keeps_world_ret |].
  apply keeps_world_bind; [apply keeps_world_pure | intros l; apply keeps_world_ret].
Qed.

Lemma snd_lift_sock {A} (m : M sock A) (w : world) :
  snd (lift_sock m w)
  = {| w_sock := snd (m (w_sock w)); w_lists := w_lists w;
       w_queries := w_queries w |}.
Proof. unfold lift_sock. now destruct (m (w_sock w)). Qed.

Lemma snd_bind_keeps {A B} (m : M world A) (k : A -> M world B) (w : world) :
  (forall a, keeps_world (k a)) -> snd (bind m k w) = snd (m w).
Proof.
  intros Hk. unfold bind. destruct (m w) as [[a|e|] w']; simpl;
    try reflexivity.
  apply Hk.
Qed.

Lemma misc_writes_frame (func : string) (opts : Z) (args f : list string)
      (s : sock) :
  _t1FN C.misc func opts args = Ok f ->
  outgoing (snd (Tyrant.misc func opts args s)) = outgoing s +:+ Bytes.join f.
Proof.
  intros Hf. unfold Tyrant.misc.
  apply (command_writes_frame _ f _ s Hf).
  apply reads_only_bind.
  - apply reads_only_try_finally;
      [apply reads_only_socksuccess | apply reads_only_socklen].
  - intros n. apply reads_only_repeatM, reads_only_sockstr.
Qed.

(** A bounded search followed by local work writes one [misc] frame and
    touches neither the lists nor the [Query] objects. *)
Lemma bounded_search_then {A} (cs : list string) (limit offset : Z)
      (k : list string -> M world A) (w : world) :
  (forall resp, keeps_world (k resp)) ->
  (forall f,
      _t1FN C.misc "search" 0 (cs ++ [setlimit limit offset]) = Ok f ->
      outgoing (w_sock (snd ((resp <- bounded_search cs limit offset ;; k resp) w)))
      = outgoing (w_sock w) +:+ Bytes.join f)
  /\ w_lists (snd ((resp <- bounded_search cs limit offset ;; k resp) w))
     = w_lists w
  /\ w_queries (snd ((resp <- bounded_search cs limit offset ;; k resp) w))
     = w_queries w.
Proof.
  intros Hk. rewrite snd_bind_keeps by exact Hk.
  unfold bounded_search. rewrite snd_lift_sock. cbn [w_sock w_lists w_queries].
  split; [| split]; try reflexivity.
  intros f Hf. now apply misc_writes_frame.
Qed.

Lemma or_0_default (x : option Z) : Query.or_0 x = default 0 x.
Proof.
  destruct x as [v|]; cbn; [| reflexivity].
  destruct (Z.eqb_spec v 0); congruence.
Qed.

End WorldFacts.

Section UnpopulatedCache.

Variables (w : world) (self : loc) (me : Query) (cs : list string).
Hypothesis at_self : w_queries w !! self = Some me.
Hypothesis no_cache : _result_cache me = None.
Hypothesis conds : w_lists w !! conditions me = Some cs.

Lemma getitem_int_search (k : Z) :
  0 <= k ->
  Query.__getitem__ self (KInt k) w
  = (resp <- bounded_search cs 1 k ;; ret (first_or_None resp)) w.
Proof using at_self no_cache conds.
  intros Hk. unfold Query.__getitem__, Query.index_supported.
  destruct (Z.leb_spec 0 k); [| lia]. cbn [negb].
  unfold bind at 1. unfold get_query. rewrite at_self, no_cache.
  unfold bind at 1. unfold ret at 1.
  unfold bind at 1. unfold get_list. rewrite conds.
  unfold bounded_search, setlimit, bind.
  destruct (lift_sock _ w) as [[[|r resp]|e|] w']; reflexivity.
Qed.

End UnpopulatedCache.

Section SliceFacts.

Context {A : Type}.

Lemma omap_seqZ_head (f : Z -> option A) (n : Z) (y : A) :
  0 < n -> f 0 = Some y -> exists l', omap f (seqZ 0 n) = y :: l'.
Proof.
  intros Hn Hf. rewrite seqZ_cons by lia. cbn [omap list_omap].
  rewrite Hf. eauto.
Qed.

(** Taking every [st]-th item of a list that has items keeps at least one. *)
Lemma list_slice_all_nonempty (x : A) (l : list A) (st : Z) :
  st <> 0 ->
  exists y l', list_slice (x :: l) None None (Some st) = Ok (y :: l').
Proof.
  intros Hst. unfold list_slice, slice_indices.
  change (default 1 (Some st)) with st.
  set (len := Z.of_nat (length (x :: l))).
  assert (Hlen : 1 <= len) by (unfold len; cbn [length]; lia).
  destruct (Z.eqb_spec st 0) as [|_]; [contradiction |].
  destruct (Z.ltb_spec st 0) as [Hneg|Hpos].
  - destruct (Z.leb_spec (len - 1) (-1)); [lia |].
    destruct (Z.ltb_spec 0 st); [lia |]. cbn [andb orb obind].
    destruct (lookup_lt_is_Some_2 (x :: l) (Z.to_nat (len - 1 + 0 * st)))
      as [y Hy]; [unfold len; lia |].
    destruct (omap_seqZ_head
                (fun i => (x :: l) !! Z.to_nat (len - 1 + i * st))
                ((-1 - (len - 1) + 1) `quot` st + 1) y) as [l' Hl']; [| exact Hy |].
    + assert (0 <= (-1 - (len - 1) + 1) `quot` st); [| lia].
      replace (-1 - (len - 1) + 1) with (- (len - 1)) by lia.
      replace st with (- - st) by lia.
      rewrite Z.quot_opp_opp by lia. apply Z.quot_pos; lia.
    + rewrite Hl'. eauto.
  - destruct (Z.ltb_spec 0 st); [| lia].
    destruct (Z.leb_spec len 0); [lia |]. cbn [andb orb obind].
    destruct (omap_seqZ_head
                (fun i => (x :: l) !! Z.to_nat (0 + i * st))
                ((len - 0 - 1) `quot` st + 1) x) as [l' Hl']; [| reflexivity |].
    + assert (0 <= (len - 0 - 1) `quot` st); [| lia].
      apply Z.quot_pos; lia.
    + rewrite Hl'. eauto.
Qed.

Lemma list_slice_all_nil (st : Z) :
  st <> 0 -> list_slice (@nil A) None None (Some st) = Ok [].
Proof.
  intros Hst. unfold list_slice, slice_indices.
  change (default 1 (Some st)) with st. cbn [length].
  destruct (Z.eqb_spec st 0) as [|_]; [contradiction |].
  destruct (Z.ltb_spec st 0); destruct (Z.ltb_spec 0 st); try lia;
    reflexivity.
Qed.

End SliceFacts.

(** The idiom [k.step and list(resp)[::k.step] or resp] never falls back
    on [resp] for a step that is not 0 unless the slice is [resp] itself. *)
Lemma step_or_all_apply_step (step : option Z) (resp : list string) (w : world) :
  (l <- pure (Query.step_or_all step resp) ;; ret (VList l)) w
  = apply_step step resp w.
Proof.
  destruct step as [st|]; cbn [Query.step_or_all apply_step]; [| reflexivity].
  destruct (Z.eqb_spec st 0) as [|Hst]; [reflexivity |].
  destruct resp as [|x resp].
  - rewrite list_slice_all_nil by exact Hst. reflexivity.
  - destruct (list_slice_all_nonempty x resp st Hst) as (y & l' & ->).
    reflexivity.
Qed.

Lemma getitem_slice_search (w : world) (self : loc) (me : Query)
      (cs : list string) (start stop step : option Z) :
  w_queries w !! self = Some me ->
  (_result_cache me = None
   \/ exists r, _result_cache me = Some r /\ w_lists w !! r = Some []) ->
  w_lists w !! conditions me = Some cs ->
  bound_ok start -> bound_ok stop ->
  Query.__getitem__ self (KSlice start stop step) w
  = (resp <- bounded_search cs
               (match stop with
                | Some e => e - default 0 start
                | None => -1
                end)
               (default 0 start) ;;
     apply_step step resp) w.
Proof.
  intros Hself Hcache Hcs Hstart Hstop.
  unfold Query.__getitem__, Query.index_supported.
  assert (Hsup : match start with None => true | Some v => 0 <=? v end
                 && match stop with None => true | Some v => 0 <=? v end = true).
  { apply andb_true_iff. split.
    - destruct start as [v|]; [apply Z.leb_le; exact Hstart | reflexivity].
    - destruct stop as [v|]; [apply Z.leb_le; exact Hstop | reflexivity]. }
  rewrite Hsup. cbn [negb].
  unfold bind at 1. unfold get_query. rewrite Hself.
  assert (Hmiss :
    (match _result_cache me with
     | None => ret None
     | Some r => l <- get_list r ;; ret (Some l)
     end) w = (Ok None, w) \/
    (match _result_cache me with
     | None => ret None
     | Some r => l <- get_list r ;; ret (Some l)
     end) w = (Ok (Some []), w)).
  { destruct Hcache as [-> | (r & -> & Hr)]; [left; reflexivity | right].
    unfold bind, get_list. rewrite Hr. reflexivity. }
  unfold bind at 1.
  destruct Hmiss as [-> | ->];
    (unfold bind at 1; unfold get_list; rewrite Hcs;
     rewrite !or_0_default;
     unfold bounded_search, setlimit, bind;
     destruct (lift_sock _ w) as [[resp|e|] w']; try reflexivity;
     apply step_or_all_apply_step).
Qed.

Lemma getitem_int_search_empty_cache (w : world) (self : loc) (me : Query)
      (cs : list string) (r : loc) (k : Z) :
  w_queries w !! self = Some me ->
  _result_cache me = Some r ->
  w_lists w !! r = Some [] ->
  w_lists w !! conditions me = Some cs ->
  0 <= k ->
  Query.__getitem__ self (KInt k) w
  = (resp <- bounded_search cs 1 k ;; ret (first_or_None resp)) w.
Proof.
  intros Hself Hcache Hr Hcs Hk.
  unfold Query.__getitem__, Query.index_supported.
  destruct (Z.leb_spec 0 k); [| lia]. cbn [negb].
  unfold bind at 1. unfold get_query. rewrite Hself, Hcache.
  unfold bind at 1. unfold bind at 1. unfold get_list at 1. rewrite Hr.
  unfold ret at 1.
  unfold bind at 1. unfold get_list. rewrite Hcs.
  unfold bounded_search, setlimit, bind.
  destruct (lift_sock _ w) as [[[|x resp]|e|] w']; reflexivity.
Qed.

(** C6: on a query whose cache is unpopulated, indexing with an integer
    [k >= 0] is one [misc('search')] call with the query's conditions
    followed by [setlimit] with limit 1 and offset [k]; the first item of
    the response is returned, or [None] when the response is empty.  The
    call writes that one frame and leaves every list and query object as it
    was. *)
Theorem getitem_int_bounded_search
        (w : world) (self : loc) (me : Query) (cs : list string) (k : Z) :
  w_queries w !! self = Some me ->
  _result_cache me = None ->
  w_lists w !! conditions me = Some cs ->
  0 <= k ->
  Query.__getitem__ self (KInt k) w
  = (resp <- lift_sock
               (Tyrant.misc "search" 0
                  (cs ++ [String.concat NUL ["setlimit"; Bytes.str 1; Bytes.str k]])) ;;
     ret (match resp with [] => VNone | r :: _ => VStr r end)) w
  /\ (forall f,
         _t1FN C.misc "search" 0
               (cs ++ [String.concat NUL ["setlimit"; Bytes.str 1; Bytes.str k]])
         = Ok f ->
         outgoing (w_sock (snd (Query.__getitem__ self (KInt k) w)))
         = outgoing (w_sock w) +:+ Bytes.join f)
  /\ w_lists (snd (Query.__getitem__ self (KInt k) w)) = w_lists w
  /\ w_queries (snd (Query.__getitem__ self (KInt k) w)) = w_queries w.
Proof.
  intros Hself Hcache Hcs Hk.
  rewrite (getitem_int_search w self me cs Hself Hcache Hcs k Hk).
  split; [reflexivity |].
  apply (bounded_search_then cs 1 k (fun resp => ret (first_or_None resp)) w).
  intros resp. apply keeps_world_ret.
Qed.

Lemma getitem_int_witness :
  fst (Query.__getitem__ 1%positive (KInt 4) example_world) = Ok (VStr "a")
  /\ outgoing (w_sock (snd (Query.__getitem__ 1%positive (KInt 4) example_world)))
     = Bytes.join
         [ String (Bytes.byte_of 200)
             (String (Bytes.byte_of 144) (Wire.u32 6 +:+ Wire.u32 0 +:+ Wire.u32 2));
           "search";
           Wire.u32 14; "setorder" +:+ NUL +:+ "age" +:+ NUL +:+ "2";
           Wire.u32 12; "setlimit" +:+ NUL +:+ "1" +:+ NUL +:+ "4" ].
Proof.
  destruct (getitem_int_bounded_search
              example_world 1%positive (mkQuery 9%positive 1%positive None)
              ["setorder" +:+ NUL +:+ "age" +:+ NUL +:+ "2"] 4
              eq_refl eq_refl eq_refl ltac:(lia)) as (Heq & Hout & _).
  split.
  - rewrite Heq. vm_compute. reflexivity.
  - rewrite (Hout _ eq_refl). vm_compute. reflexivity.
Defined.

(** C5, as the code has it: on a query whose cache is unpopulated, a slice
    with start and stop absent or not negative is one [misc('search')] call
    with the query's conditions followed by [setlimit] with limit
    [stop - start] (start counted as 0 when absent; -1 when stop is absent)
    and offset [start] (0 when absent).  A step that is not 0 is applied to
    the response as [resp[::step]]; an absent step and a step of 0 leave the
    response as it came.  The call writes that one frame and leaves every
    list and query object as it was. *)
Theorem getitem_slice_bounded_search
        (w : world) (self : loc) (me : Query) (cs : list string)
        (start stop step : option Z) :
  w_queries w !! self = Some me ->
  _result_cache me = None ->
  w_lists w !! conditions me = Some cs ->
  bound_ok start -> bound_ok stop ->
  let offset := match start with Some b => b | None => 0 end in
  let limit := match stop with Some e => e - offset | None => -1 end in
  let search :=
    cs ++ [String.concat NUL ["setlimit"; Bytes.str limit; Bytes.str offset]] in
  Query.__getitem__ self (KSlice start stop step) w
  = (resp <- lift_sock (Tyrant.misc "search" 0 search) ;;
     match step with
     | Some st =>
         if st =? 0 then ret (VList resp)
         else l <- pure (list_slice resp None None (Some st)) ;; ret (VList l)
     | None => ret (VList resp)
     end) w
  /\ (forall f,
         _t1FN C.misc "search" 0 search = Ok f ->
         outgoing (w_sock (snd (Query.__getitem__ self (KSlice start stop step) w)))
         = outgoing (w_sock w) +:+ Bytes.join f)
  /\ w_lists (snd (Query.__getitem__ self (KSlice start stop step) w)) = w_lists w
  /\ w_queries (snd (Query.__getitem__ self (KSlice start stop step) w))
     = w_queries w.
Proof.
  intros Hself Hcache Hcs Hstart Hstop offset limit search.
  rewrite (getitem_slice_search w self me cs start stop step
             Hself (or_introl Hcache) Hcs Hstart Hstop).
  split; [reflexivity |].
  apply (bounded_search_then cs limit offset (apply_step step) w).
  intros resp. apply keeps_world_apply_step.
Qed.

Lemma getitem_slice_witness :
  fst (Query.__getitem__ 1%positive (KSlice (Some 2) (Some 5) (Some 2))
         example_world)
  = Ok (VList ["a"; "c"])
  /\ outgoing (w_sock (snd (Query.__getitem__ 1%positive
                              (KSlice (Some 2) (Some 5) (Some 2)) example_world)))
     = Bytes.join
         [ String (Bytes.byte_of 200)
             (String (Bytes.byte_of 144) (Wire.u32 6 +:+ Wire.u32 0 +:+ Wire.u32 2));
           "search";
           Wire.u32 14; "setorder" +:+ NUL +:+ "age" +:+ NUL +:+ "2";
           Wire.u32 12; "setlimit" +:+ NUL +:+ "3" +:+ NUL +:+ "2" ].
Proof.
  destruct (getitem_slice_bounded_search
              example_world 1%positive (mkQuery 9%positive 1%positive None)
              ["setorder" +:+ NUL +:+ "age" +:+ NUL +:+ "2"]
              (Some 2) (Some 5) (Some 2)
              eq_refl eq_refl eq_refl ltac:(simpl; lia) ltac:(simpl; lia))
    as (Heq & Hout & _).
  split.
  - rewrite Heq. vm_compute. reflexivity.
  - rewrite (Hout _ eq_refl). vm_compute. reflexivity.
Defined.

(** C5 as stated fails for a step of 0: the step is not applied (taking
    [resp[::0]] raises [ValueError]); the response is returned whole. *)
Lemma getitem_slice_step_zero_ignored :
  fst (Query.__getitem__ 1%positive (KSlice (Some 0) (Some 3) (Some 0))
         example_world)
  = Ok (VList ["a"; "b"; "c"])
  /\ list_slice ["a"; "b"; "c"] None None (Some 0)
     = Raise (ValueError "slice step cannot be zero").
Proof. split; vm_compute; reflexivity. Qed.

(** ** Indexing a query whose cache is populated *)

Section PopulatedCache.

Variables (w : world) (self : loc) (me : Query) (r : loc).
Hypothesis at_self : w_queries w !! self = Some me.
Hypothesis cached : _result_cache me = Some r.

Lemma getitem_int_cached (c : string) (cache : list string) (k : Z) :
  w_lists w !! r = Some (c :: cache) ->
  0 <= k ->
  Query.__getitem__ self (KInt k) w
  = (Ok (match (c :: cache) !! Z.to_nat k with
         | Some x => VStr x
         | None => VNone
         end), w).
Proof using at_self cached.
  intros Hr Hk. unfold Query.__getitem__, Query.index_supported.
  destruct (Z.leb_spec 0 k); [| lia]. cbn [negb].
  unfold bind at 1. unfold get_query. rewrite at_self, cached.
  unfold bind at 1. unfold bind at 1. unfold get_list. rewrite Hr.
  unfold ret at 1. unfold Query.cache_item, list_item.
  destruct (Z.ltb_spec k 0); [lia |].
  destruct (Z.ltb_spec k 0); [lia |].
  destruct ((c :: cache) !! Z.to_nat k); reflexivity.
Qed.

Lemma getitem_slice_cached (c : string) (cache : list string)
      (start stop step : option Z) :
  w_lists w !! r = Some (c :: cache) ->
  bound_ok start -> bound_ok stop ->
  Query.__getitem__ self (KSlice start stop step) w
  = (match list_slice (c :: cache) start stop step with
     | Ok l => Ok (VList l)
     | Raise e => Raise e
     | Stall => Stall
     end, w).
Proof using at_self cached.
  intros Hr Hstart Hstop. unfold Query.__getitem__, Query.index_supported.
  assert (Hsup : match start with None => true | Some v => 0 <=? v end
                 && match stop with None => true | Some v => 0 <=? v end = true).
  { apply andb_true_iff. split.
    - destruct start as [v|]; [apply Z.leb_le; exact Hstart | reflexivity].
    - destruct stop as [v|]; [apply Z.leb_le; exact Hstop | reflexivity]. }
  rewrite Hsup. cbn [negb].
  unfold bind at 1. unfold get_query. rewrite at_self, cached.
  unfold bind at 1. unfold bind at 1. unfold get_list. rewrite Hr.
  unfold ret at 1. unfold Query.cache_item.
  destruct (list_slice (c :: cache) start stop step) as [l|e|];
    try reflexivity.
  destruct e; reflexivity.
Qed.

End PopulatedCache.

(** C10: once the cache of a query holds a list with items, indexing and
    slicing are answered from that list and the connection and the store
    stay exactly as they were; an integer index past the end gives [None].
    A cache that holds the empty list counts for nothing: indexing and
    slicing run the bounded search of a query without cache. *)
Theorem getitem_uses_nonempty_cache
        (w : world) (self : loc) (me : Query) (r : loc) :
  w_queries w !! self = Some me ->
  _result_cache me = Some r ->
  (forall (c : string) (cache : list string),
      w_lists w !! r = Some (c :: cache) ->
      (forall k : Z,
          0 <= k ->
          Query.__getitem__ self (KInt k) w
          = (Ok (match (c :: cache) !! Z.to_nat k with
                 | Some x => VStr x
                 | None => VNone
                 end), w))
      /\ (forall start stop step : option Z,
             bound_ok start -> bound_ok stop ->
             Query.__getitem__ self (KSlice start stop step) w
             = (match list_slice (c :: cache) start stop step with
                | Ok l => Ok (VList l)
                | Raise e => Raise e
                | Stall => Stall
                end, w)))
  /\ (forall cs : list string,
         w_lists w !! r = Some [] ->
         w_lists w !! conditions me = Some cs ->
         (forall k : Z,
             0 <= k ->
             Query.__getitem__ self (KInt k) w
             = (resp <- bounded_search cs 1 k ;; ret (first_or_None resp)) w)
         /\ (forall start stop step : option Z,
                bound_ok start -> bound_ok stop ->
                Query.__getitem__ self (KSlice start stop step) w
                = (resp <- bounded_search cs
                             (match stop with
                              | Some e => e - default 0 start
                              | None => -1
                              end)
                             (default 0 start) ;;
                   apply_step step resp) w)).
Proof.
  intros Hself Hcache. split.
  - intros c cache Hr. split.
    + intros k Hk. now apply (getitem_int_cached w self me r Hself Hcache).
    + intros start stop step Hstart Hstop.
      now apply (getitem_slice_cached w self me r Hself Hcache).
  - intros cs Hr Hcs. split.
    + intros k Hk.
      now apply (getitem_int_search_empty_cache w self me cs r).
    + intros start stop step Hstart Hstop.
      apply (getitem_slice_search w self me cs start stop step Hself);
        auto. right. eauto.
Qed.

Lemma getitem_cache_witness :
  Query.__getitem__ 3%positive (KInt 1) example_world
  = (Ok (VStr "y"), example_world)
  /\ Query.__getitem__ 3%positive (KInt 2) example_world
     = (Ok VNone, example_world)
  /\ Query.__getitem__ 3%positive (KSlice None None (Some (-1))) example_world
     = (Ok (VList ["y"; "x"]), example_world)
  /\ fst (Query.__getitem__ 2%positive (KInt 0) example_world) = Ok (VStr "a").
Proof.
  destruct (getitem_uses_nonempty_cache
              example_world 3%positive
              (mkQuery 9%positive 1%positive (Some 3%positive)) 3%positive
              eq_refl eq_refl) as (Hfull & _).
  destruct (Hfull "x" ["y"] eq_refl) as (Hint & Hslice).
  destruct (getitem_uses_nonempty_cache
              example_world 2%positive
              (mkQuery 9%positive 1%positive (Some 2%positive)) 2%positive
              eq_refl eq_refl) as (_ & Hempty).
  destruct (Hempty ["setorder" +:+ NUL +:+ "age" +:+ NUL +:+ "2"]
                   eq_refl eq_refl) as (Hint0 & _).
  split; [| split; [| split]].
  - exact (Hint 1 ltac:(lia)).
  - exact (Hint 2 ltac:(lia)).
  - exact (Hslice None None (Some (-1)) I I).
  - rewrite (Hint0 0 ltac:(lia)). vm_compute. reflexivity.
Defined.

(** ** Deriving queries *)

Section Derivation.

Variables (w : world) (self : loc) (me : Query) (cs : list string).
Hypothesis at_self : w_queries w !! self = Some me.
Hypothesis conds : w_lists w !! conditions me = Some cs.

(** [_clone] makes a new object that points to a new copy of the
    conditions. *)
Lemma _clone_derives : derived_from w me cs [] (Query._clone self w).
Proof using at_self conds.
  set (c0 := fresh (dom (w_lists w))).
  set (q := fresh (dom (w_queries w))).
  set (c := fresh (dom (<[c0 := []]> (w_lists w)))).
  assert (Hc0 : c0 ∉ dom (w_lists w)) by apply is_fresh.
  assert (Hq : q ∉ dom (w_queries w)) by apply is_fresh.
  assert (Hc : c ∉ dom (<[c0 := []]> (w_lists w))) by apply is_fresh.
  assert (Hcond : conditions me ∈ dom (w_lists w))
    by (apply elem_of_dom; eauto).
  assert (Hne : c0 <> conditions me) by (intros ->; contradiction).
  exists q, c,
    {| w_sock := w_sock w;
       w_lists := <[c := cs]> (<[c0 := []]> (w_lists w));
       w_queries :=
         <[q := {| ptt := ptt me; conditions := c; _result_cache := None |}]>
           (<[q := {| ptt := ptt me; conditions := c0; _result_cache := None |}]>
              (w_queries w)) |}.
  split; [| split; [| split; [| split; [| split; [| split; [| split]]]]]].
  - unfold Query._clone, Query.__init__, bind, get_query, new_list, new_query,
      get_list, set_query, ret.
    cbn [w_sock w_lists w_queries]. rewrite at_self.
    cbn [w_sock w_lists w_queries ptt conditions _result_cache].
    fold c0. rewrite (lookup_insert_ne (w_lists w) c0 (conditions me)) by exact Hne.
    rewrite conds. cbn [w_sock w_lists w_queries]. fold q c.
    rewrite lookup_insert_eq. reflexivity.
  - exact Hq.
  - rewrite dom_insert in Hc. set_solver.
  - cbn [w_queries]. apply lookup_insert_eq.
  - cbn [w_lists]. rewrite lookup_insert_eq, app_nil_r. reflexivity.
  - intros a Ha. cbn [w_queries].
    rewrite !lookup_insert_ne by (intros ->; contradiction). reflexivity.
  - intros l Hl. cbn [w_lists].
    rewrite !lookup_insert_ne; [reflexivity | intros ->; contradiction |].
    intros ->. apply Hc. rewrite dom_insert. set_solver.
  - reflexivity.
Qed.

(** Appending a condition to the list of the derived query touches that
    list alone. *)
Lemma derived_append {B} (added : list string) (q : loc) (w' : world)
      (x : string) (k : M world B) :
  derived_from w me cs added (Ok q, w') ->
  exists w'',
    (qo <- get_query q ;; list_append (conditions qo) x ;;; k) w' = k w''
    /\ derived_from w me cs (added ++ [x]) (Ok q, w'').
Proof.
  intros (q0 & c & w0 & Heq & Hq & Hc & Hobj & Hlist & Hqs & Hls & Hsock).
  injection Heq as <- <-.
  exists {| w_sock := w_sock w';
            w_lists := <[c := (cs ++ added) ++ [x]]> (w_lists w');
            w_queries := w_queries w' |}.
  split.
  - unfold bind, get_query, list_append, bind, get_list.
    rewrite Hobj. cbn [conditions]. rewrite Hlist. reflexivity.
  - exists q, c, {| w_sock := w_sock w';
                    w_lists := <[c := (cs ++ added) ++ [x]]> (w_lists w');
                    w_queries := w_queries w' |}.
    split; [reflexivity |]. split; [exact Hq |]. split; [exact Hc |].
    split; [exact Hobj |].
    split; [cbn [w_lists]; rewrite lookup_insert_eq, app_assoc; reflexivity |].
    split; [exact Hqs |].
    split; [| exact Hsock].
    intros l Hl. cbn [w_lists].
    rewrite lookup_insert_ne by (intros ->; contradiction). now apply Hls.
Qed.

Lemma filter_loop_derives (query : list (string * filter_value)) :
  forall (added new : list string) (q : loc) (w' : world),
    filter_conditions query = Ok new ->
    derived_from w me cs added (Ok q, w') ->
    exists w'',
      Query.filter_loop q query w' = (Ok tt, w'')
      /\ derived_from w me cs (added ++ new) (Ok q, w'').
Proof.
  induction query as [|[key value] query IH]; intros added new q w' Hnew Hd.
  - injection Hnew as <-. exists w'. rewrite app_nil_r. split; [reflexivity | exact Hd].
  - cbn [filter_conditions] in Hnew.
    destruct (Query.filter_condition key value) as [c| |] eqn:Hc;
      try discriminate.
    destruct (filter_conditions query) as [new'| |] eqn:Hnew';
      try discriminate.
    cbn [obind] in Hnew. injection Hnew as <-.
    cbn [Query.filter_loop]. unfold bind at 1. unfold pure. rewrite Hc.
    destruct (derived_append added q w' c (Query.filter_loop q query) Hd)
      as (w1 & -> & Hd1).
    destruct (IH (added ++ [c]) new' q w1 eq_refl Hd1) as (w2 & Hrun & Hd2).
    exists w2. split; [exact Hrun |].
    rewrite <- app_assoc in Hd2. exact Hd2.
Qed.

Lemma order_by_derives (condition : string) :
  derived_from w me cs [condition]
    ((q <- Query._clone self ;;
      qo <- get_query q ;; list_append (conditions qo) condition ;;; ret q) w).
Proof using at_self conds.
  pose proof _clone_derives as Hclone.
  destruct Hclone as (q & c & w' & Heq & Hrest).
  unfold bind at 1. rewrite Heq.
  destruct (derived_append [] q w' condition (ret q)
              (ex_intro _ q (ex_intro _ c (ex_intro _ w' (conj eq_refl Hrest)))))
    as (w1 & -> & Hd1).
  exact Hd1.
Qed.

Lemma filter_derives (query : list (string * filter_value)) (new : list string) :
  filter_conditions query = Ok new ->
  derived_from w me cs new (Query.filter self query w).
Proof using at_self conds.
  intros Hnew. pose proof _clone_derives as Hclone.
  destruct Hclone as (q & c & w' & Heq & Hrest).
  unfold Query.filter. unfold bind at 1. rewrite Heq.
  destruct (filter_loop_derives query [] new q w' Hnew
              (ex_intro _ q (ex_intro _ c (ex_intro _ w' (conj eq_refl Hrest)))))
    as (w1 & Hrun & Hd1).
  unfold bind. rewrite Hrun. exact Hd1.
Qed.

(** Whatever the keywords, the loop of [filter] works on the derived query
    alone. *)
Lemma filter_loop_frame (query : list (string * filter_value)) :
  forall (added : list string) (q : loc) (w' : world),
    derived_from w me cs added (Ok q, w') ->
    exists added',
      derived_from w me cs added' (Ok q, snd (Query.filter_loop q query w')).
Proof.
  induction query as [|[key value] query IH]; intros added q w' Hd.
  - exists added. exact Hd.
  - cbn [Query.filter_loop]. unfold bind at 1. unfold pure.
    destruct (Query.filter_condition key value) as [c|e|].
    + destruct (derived_append added q w' c (Query.filter_loop q query) Hd)
        as (w1 & -> & Hd1).
      apply (IH (added ++ [c]) q w1 Hd1).
    + exists added. exact Hd.
    + exists added. exact Hd.
Qed.

(** [filter] leaves the parent and its conditions as they were, also when
    a keyword is refused. *)
Lemma filter_keeps_parent (query : list (string * filter_value)) :
  w_queries (snd (Query.filter self query w)) !! self = Some me
  /\ w_lists (snd (Query.filter self query w)) !! conditions me = Some cs.
Proof using at_self conds.
  pose proof _clone_derives as Hclone.
  destruct Hclone as (q & c & w' & Heq & Hrest).
  destruct (filter_loop_frame query [] q w'
              (ex_intro _ q (ex_intro _ c (ex_intro _ w' (conj eq_refl Hrest)))))
    as (added' & q1 & c1 & w1 & Heq1 & _ & _ & _ & _ & Hqs & Hls & _).
  injection Heq1 as <- Hw1.
  assert (Hsnd : snd (Query.filter self query w) = w1).
  { unfold Query.filter. unfold bind at 1. rewrite Heq. unfold bind.
    destruct (Query.filter_loop q query w') as [[[]|e|] w2];
      cbn [snd] in *; exact Hw1. }
  rewrite Hsnd. split.
  - rewrite Hqs by (apply elem_of_dom; eauto). exact at_self.
  - rewrite Hls by (apply elem_of_dom; eauto). exact conds.
Qed.

End Derivation.

(** After a derivation the parent is a different object that still has its
    attributes and its conditions; appending to the conditions of the
    derived query, or populating its cache, does not reach the parent. *)
Lemma derived_parent_intact (w : world) (self : loc) (me : Query)
      (cs added : list string) (q : loc) (w' : world) :
  w_queries w !! self = Some me ->
  w_lists w !! conditions me = Some cs ->
  derived_from w me cs added (Ok q, w') ->
  q <> self
  /\ w_queries w' !! self = Some me
  /\ w_lists w' !! conditions me = Some cs
  /\ (forall x : string,
         w_lists (snd ((qo <- get_query q ;; list_append (conditions qo) x) w'))
         !! conditions me = Some cs)
  /\ w_queries (snd (Query._get_results q w')) !! self = Some me.
Proof.
  intros Hself Hcs (q0 & c & w0 & Heq & Hq & Hc & Hobj & Hlist & Hqs & Hls & Hsock).
  injection Heq as <- <-.
  assert (Hdself : self ∈ dom (w_queries w)) by (apply elem_of_dom; eauto).
  assert (Hdcs : conditions me ∈ dom (w_lists w)) by (apply elem_of_dom; eauto).
  assert (Hne : q <> self) by (intros ->; contradiction).
  assert (Hnec : c <> conditions me) by (intros ->; contradiction).
  split; [exact Hne |].
  split; [rewrite Hqs by exact Hdself; exact Hself |].
  split; [rewrite Hls by exact Hdcs; exact Hcs |].
  split.
  - intros x. unfold bind, get_query, list_append, bind, get_list.
    rewrite Hobj. cbn [conditions]. rewrite Hlist. cbn [snd w_lists].
    rewrite lookup_insert_ne by exact Hnec.
    rewrite Hls by exact Hdcs. exact Hcs.
  - unfold Query._get_results. unfold bind at 1. unfold get_query at 1.
    rewrite Hobj. cbn [_result_cache conditions].
    unfold bind at 1. unfold get_list. rewrite Hlist.
    unfold bind at 1. unfold lift_sock.
    destruct (Tyrant.misc "search" 0 (cs ++ added) (w_sock w'))
      as [[resp|e|] s']; cbn [snd w_queries];
      try (rewrite Hqs by exact Hdself; exact Hself).
    unfold bind, new_list, get_query, set_query, ret.
    cbn [w_queries w_lists w_sock]. rewrite Hobj. cbn [snd w_queries].
    rewrite lookup_insert_ne by exact Hne.
    rewrite Hqs by exact Hdself. exact Hself.
Qed.

(** C4: [order_by_num], [order_by_str] and [filter] (called with keywords
    that all name a known operation) return a new [Query] object whose
    condition list is a new list holding the parent's conditions followed by
    the new ones, and whose cache is unpopulated whatever the parent has
    cached; every object and every list that existed before the call,
    the parent and its condition list among them, is as it was, and nothing
    goes over the connection.  The parent stays as it was also when [filter]
    refuses a keyword, when the condition list of the derived query is
    appended to later, and when the cache of the derived query is
    populated. *)
Theorem derivation_copies_conditions
        (w : world) (self : loc) (me : Query) (cs : list string) :
  w_queries w !! self = Some me ->
  w_lists w !! conditions me = Some cs ->
  (forall field : string,
      derived_from w me cs
        [Query.order_condition field RDBQONUMDESC RDBQONUMASC]
        (Query.order_by_num self field w))
  /\ (forall field : string,
         derived_from w me cs
           [Query.order_condition field RDBQOSTRDESC RDBQOSTRASC]
           (Query.order_by_str self field w))
  /\ (forall (query : list (string * filter_value)) (new : list string),
         filter_conditions query = Ok new ->
         derived_from w me cs new (Query.filter self query w))
  /\ (forall query : list (string * filter_value),
         w_queries (snd (Query.filter self query w)) !! self = Some me
         /\ w_lists (snd (Query.filter self query w)) !! conditions me = Some cs)
  /\ (forall (added : list string) (q : loc) (w' : world),
         derived_from w me cs added (Ok q, w') ->
         q <> self
         /\ w_queries w' !! self = Some me
         /\ w_lists w' !! conditions me = Some cs
         /\ (forall x : string,
                w_lists (snd ((qo <- get_query q ;;
                               list_append (conditions qo) x) w'))
                !! conditions me = Some cs)
         /\ w_queries (snd (Query._get_results q w')) !! self = Some me).
Proof.
  intros Hself Hcs. split; [| split; [| split; [| split]]].
  - intros field. apply (order_by_derives w self me cs Hself Hcs).
  - intros field. apply (order_by_derives w self me cs Hself Hcs).
  - intros query new Hnew. now apply (filter_derives w self me cs Hself Hcs).
  - intros query. apply (filter_keeps_parent w self me cs Hself Hcs).
  - intros added q w' Hd. now apply (derived_parent_intact w self me cs added).
Qed.

Lemma derivation_witness :
  derived_from example_world
    (mkQuery 9%positive 1%positive (Some 3%positive))
    ["setorder" +:+ NUL +:+ "age" +:+ NUL +:+ "2"]
    [ "addcond" +:+ NUL +:+ "name" +:+ NUL +:+ "0" +:+ NUL +:+ "bob";
      "addcond" +:+ NUL +:+ "age" +:+ NUL +:+ "13" +:+ NUL +:+ "1,2" ]
    (Query.filter 3%positive
       [("name__streq", FStr "bob"); ("age__numbt", FList ["1"; "2"])]
       example_world)
  /\ derived_from example_world
       (mkQuery 9%positive 1%positive (Some 3%positive))
       ["setorder" +:+ NUL +:+ "age" +:+ NUL +:+ "2"]
       [ "setorder" +:+ NUL +:+ "age" +:+ NUL +:+ "3" ]
       (Query.order_by_num 3%positive "-age" example_world).
Proof.
  destruct (derivation_copies_conditions
              example_world 3%positive
              (mkQuery 9%positive 1%positive (Some 3%positive))
              ["setorder" +:+ NUL +:+ "age" +:+ NUL +:+ "2"]
              eq_refl eq_refl) as (Hnum & _ & Hfilter & _).
  split.
  - exact (Hfilter
             [("name__streq", FStr "bob"); ("age__numbt", FList ["1"; "2"])]
             _ eq_refl).
  - exact (Hnum "-age").
Defined.

(** ** Bulk get *)

Section ListToDict.

Lemma list_item_at {A} (lst : list A) (n : nat) :
  list_item lst (Z.of_nat n)
  = match lst !! n with
    | Some x => Ok x
    | None => Raise IndexError
    end.
Proof.
  unfold list_item.
  destruct (Z.ltb_spec (Z.of_nat n) 0); [lia |].
  destruct (Z.ltb_spec (Z.of_nat n) 0); [lia |].
  now rewrite Nat2Z.id.
Qed.

Lemma dict_of_pairs_at_app (lst : list string) (idx1 idx2 : list Z)
      (d : gmap string string) :
  dict_of_pairs_at lst (idx1 ++ idx2) d
  = obind (dict_of_pairs_at lst idx1 d)
          (fun d' => dict_of_pairs_at lst idx2 d').
Proof.
  revert d. induction idx1 as [|i idx1 IH]; intros d; [reflexivity |].
  cbn [app dict_of_pairs_at].
  destruct (list_item lst i) as [k| |]; try reflexivity.
  destruct (list_item lst (i + 1)) as [v| |]; try reflexivity.
  cbn [obind]. apply IH.
Qed.

(** Walking the even indices of an interleaved list inserts the pairs from
    left to right. *)
Lemma dict_of_pairs_at_interleave (ps : list (string * string)) :
  forall (pre tail : list string) (d : gmap string string),
    dict_of_pairs_at (pre ++ interleave ps ++ tail)
      ((fun i => Z.of_nat (length pre) + 2 * i) <$> seqZ 0 (Z.of_nat (length ps)))
      d
    = Ok (foldl insert_pair d ps).
Proof.
  induction ps as [|[k v] ps IH]; intros pre tail d; [reflexivity |].
  cbn [length interleave foldl].
  rewrite seqZ_cons by lia.
  replace (Z.pred (Z.of_nat (S (length ps)))) with (Z.of_nat (length ps)) by lia.
  change (Z.succ 0) with (1 + 0). rewrite <- fmap_add_seqZ.
  cbn [fmap list_fmap dict_of_pairs_at].
  replace (Z.of_nat (length pre) + 2 * 0) with (Z.of_nat (length pre)) by lia.
  replace (Z.of_nat (length pre) + 1) with (Z.of_nat (S (length pre))) by lia.
  rewrite !list_item_at.
  rewrite (lookup_app_r pre) by lia. rewrite Nat.sub_diag. cbn [lookup list_lookup].
  rewrite (lookup_app_r pre) by lia.
  replace (S (length pre) - length pre)%nat with 1%nat by lia.
  cbn [lookup list_lookup app obind].
  specialize (IH (pre ++ [k; v]) tail (<[k := v]> d)).
  rewrite <- app_assoc in IH. cbn [app] in IH.
  change (insert_pair d (k, v)) with (<[k := v]> d).
  rewrite <- IH. f_equal.
  rewrite <- list_fmap_compose. apply list_fmap_ext.
  intros i x _. cbn. rewrite length_app. cbn [length]. lia.
Qed.

Lemma xrange_pairs (n : nat) :
  xrange 0 (Z.of_nat (2 * n)) 2
  = (fun i => Z.of_nat 0 + 2 * i) <$> seqZ 0 (Z.of_nat n).
Proof.
  unfold xrange. f_equal.
  replace (Z.of_nat (2 * n) - 0 + 2 - 1) with (1 + Z.of_nat n * 2) by lia.
  rewrite Z.div_add by lia. reflexivity.
Qed.

Lemma xrange_pairs_and_one (n : nat) :
  xrange 0 (Z.of_nat (2 * n + 1)) 2
  = ((fun i => Z.of_nat 0 + 2 * i) <$> seqZ 0 (Z.of_nat n))
    ++ [Z.of_nat (2 * n)].
Proof.
  unfold xrange.
  replace (Z.of_nat (2 * n + 1) - 0 + 2 - 1) with (0 + Z.of_nat (S n) * 2) by lia.
  rewrite Z.div_add by lia. change (0 `div` 2) with 0. rewrite Z.add_0_l.
  rewrite seqZ_S, fmap_app. cbn [fmap list_fmap]. f_equal. f_equal. lia.
Qed.

Lemma length_interleave (ps : list (string * string)) :
  length (interleave ps) = (2 * length ps)%nat.
Proof.
  induction ps as [|[k v] ps IH]; cbn [interleave length]; lia.
Qed.

(** An interleaved list decodes to the dictionary of its pairs. *)
Lemma list_to_dict_interleave (ps : list (string * string)) :
  list_to_dict (interleave ps) = Ok (foldl insert_pair ∅ ps).
Proof.
  unfold list_to_dict. rewrite length_interleave, xrange_pairs.
  pose proof (dict_of_pairs_at_interleave ps [] [] ∅) as H.
  cbn [app length] in H. rewrite app_nil_r in H. exact H.
Qed.

(** A list with an entry left over after the pairs does not decode. *)
Lemma list_to_dict_unpaired (ps : list (string * string)) (x : string) :
  list_to_dict (interleave ps ++ [x]) = Raise IndexError.
Proof.
  unfold list_to_dict. rewrite length_app, length_interleave. cbn [length].
  rewrite xrange_pairs_and_one, dict_of_pairs_at_app.
  pose proof (dict_of_pairs_at_interleave ps [] [x] ∅) as H.
  cbn [app length] in H. rewrite H. cbn [obind dict_of_pairs_at].
  replace (Z.of_nat (2 * length ps) + 1)
    with (Z.of_nat (S (2 * length ps))) by lia.
  rewrite !list_item_at.
  rewrite lookup_app_r by (rewrite length_interleave; lia).
  rewrite length_interleave, Nat.sub_diag. cbn [lookup list_lookup obind].
  rewrite lookup_ge_None_2; [reflexivity |].
  rewrite length_app, length_interleave. cbn [length]. lia.
Qed.

Lemma foldl_insert_pair_lookup (ps : list (string * string)) (k : string) :
  forall d : gmap string string,
    foldl insert_pair d ps !! k
    = match value_in_pairs ps k with
      | Some v => Some v
      | None => d !! k
      end.
Proof.
  induction ps as [|[k' v] ps IH]; intros d; [reflexivity |].
  cbn [foldl value_in_pairs]. rewrite IH.
  destruct (value_in_pairs ps k) as [v'|]; [reflexivity |].
  unfold insert_pair. cbn [fst snd].
  destruct (decide (k' = k)) as [->|Hne].
  - apply lookup_insert_eq.
  - rewrite lookup_insert_ne by exact Hne. reflexivity.
Qed.

Lemma dict_lookup_value_in_pairs (ps : list (string * string)) (k : string) :
  foldl insert_pair (∅ : gmap string string) ps !! k = value_in_pairs ps k.
Proof.
  rewrite foldl_insert_pair_lookup.
  destruct (value_in_pairs ps k); [reflexivity | apply lookup_empty].
Qed.

(** Every list is a run of pairs, with or without one entry left over. *)
Lemma pairs_or_pairs_and_one (l : list string) :
  exists ps, l = interleave ps \/ exists x, l = interleave ps ++ [x].
Proof.
  assert (H : forall n (l : list string), (length l <= n)%nat ->
            exists ps, l = interleave ps \/ exists x, l = interleave ps ++ [x]).
  { clear l. induction n as [|n IH]; intros [|a [|b l]] Hlen;
      cbn [length] in Hlen; try lia.
    - exists []. now left.
    - exists []. now left.
    - exists []. right. now exists a.
    - destruct (IH l ltac:(lia)) as (ps & [-> | (x & ->)]).
      + exists ((a, b) :: ps). now left.
      + exists ((a, b) :: ps). right. now exists x. }
  apply (H (length l)). lia.
Qed.

End ListToDict.

(** C1, as the code has it.  Given the list [rval] that [misc('getlist')]
    decoded for the [N] requested keys:
    - fewer than [N] entries raise the "unusable response" [KeyError];
    - exactly [N] entries are returned as they are, in request order;
    - more than [N] entries that pair up as [k1, v1, k2, v2, ...] are
      re-keyed: the result gives, in request order, the value of the last
      pair with the requested key ([None] when the response has no such
      pair);
    - more than [N] entries with one left over after the pairs raise
      [IndexError]. *)
Theorem multi_get_by_response_shape
        (keys : list string) (no_update_log : bool) (s s' : sock)
        (rval : list string) :
  Tyrant.misc "getlist" (PyTyrant.opts_of no_update_log) keys s = (Ok rval, s') ->
  ((length rval < length keys)%nat ->
   PyTyrant.multi_get keys no_update_log s
   = (Raise (KeyError "Missing a result, unusable response in 1.1.10"), s'))
  /\ (length rval = length keys ->
      PyTyrant.multi_get keys no_update_log s = (Ok (Some <$> rval), s'))
  /\ (forall ps : list (string * string),
         (length keys < length rval)%nat ->
         rval = interleave ps ->
         PyTyrant.multi_get keys no_update_log s
         = (Ok (value_in_pairs ps <$> keys), s'))
  /\ (forall (ps : list (string * string)) (x : string),
         (length keys < length rval)%nat ->
         rval = interleave ps ++ [x] ->
         PyTyrant.multi_get keys no_update_log s = (Raise IndexError, s')).
Proof.
  intros Hmisc. unfold PyTyrant.multi_get, bind. rewrite Hmisc.
  split; [| split; [| split]].
  - intros Hlt.
    destruct (Nat.leb_spec (length rval) (length keys)); [| lia].
    destruct (Nat.ltb_spec (length rval) (length keys)); [reflexivity | lia].
  - intros Heq.
    destruct (Nat.leb_spec (length rval) (length keys)); [| lia].
    destruct (Nat.ltb_spec (length rval) (length keys)); [lia | reflexivity].
  - intros ps Hgt ->.
    destruct (Nat.leb_spec (length (interleave ps)) (length keys)); [lia |].
    unfold pure. rewrite list_to_dict_interleave. unfold ret. f_equal. f_equal.
    apply list_fmap_ext. intros i k _. apply dict_lookup_value_in_pairs.
  - intros ps x Hgt ->.
    destruct (Nat.leb_spec (length (interleave ps ++ [x])) (length keys));
      [lia |].
    unfold pure. rewrite list_to_dict_unpaired. reflexivity.
Qed.

Lemma multi_get_witness :
  fst (PyTyrant.multi_get ["a"; "b"; "c"] false
         {| incoming := misc_reply ["b"; "2"; "a"; "0"; "a"; "1"];
            outgoing := "" |})
  = Ok [Some "1"; Some "2"; None]
  /\ fst (PyTyrant.multi_get ["a"; "b"] false
            {| incoming := misc_reply ["1"; "2"]; outgoing := "" |})
     = Ok [Some "1"; Some "2"]
  /\ fst (PyTyrant.multi_get ["a"; "b"] false
            {| incoming := misc_reply ["1"]; outgoing := "" |})
     = Raise (KeyError "Missing a result, unusable response in 1.1.10").
Proof.
  split; [| split].
  - set (s := {| incoming := misc_reply ["b"; "2"; "a"; "0"; "a"; "1"];
                 outgoing := "" |}).
    destruct (multi_get_by_response_shape
                ["a"; "b"; "c"] false s
                (snd (Tyrant.misc "getlist" 0 ["a"; "b"; "c"] s))
                ["b"; "2"; "a"; "0"; "a"; "1"]
                ltac:(vm_compute; reflexivity)) as (_ & _ & Hpairs & _).
    rewrite (Hpairs [("b", "2"); ("a", "0"); ("a", "1")]
                    ltac:(simpl; lia) eq_refl).
    reflexivity.
  - set (s := {| incoming := misc_reply ["1"; "2"]; outgoing := "" |}).
    destruct (multi_get_by_response_shape
                ["a"; "b"] false s
                (snd (Tyrant.misc "getlist" 0 ["a"; "b"] s))
                ["1"; "2"]
                ltac:(vm_compute; reflexivity)) as (_ & Hsame & _).
    rewrite (Hsame eq_refl). reflexivity.
  - set (s := {| incoming := misc_reply ["1"]; outgoing := "" |}).
    destruct (multi_get_by_response_shape
                ["a"; "b"] false s
                (snd (Tyrant.misc "getlist" 0 ["a"; "b"] s))
                ["1"]
                ltac:(vm_compute; reflexivity)) as (Hfew & _).
    rewrite (Hfew ltac:(simpl; lia)). reflexivity.
Defined.

(** C1 as stated fails for a response of more than [N] entries that do not
    pair up: for the one key [a] and the three entries [a], [1], [b], no
    list is returned; the decoding raises [IndexError]. *)
Lemma multi_get_unpaired_response_raises :
  let s := {| incoming := misc_reply ["a"; "1"; "b"]; outgoing := "" |} in
  fst (Tyrant.misc "getlist" 0 ["a"] s) = Ok ["a"; "1"; "b"]
  /\ fst (PyTyrant.multi_get ["a"] false s) = Raise IndexError.
Proof. split; vm_compute; reflexivity. Qed.

(** * Further properties of the client *)

(** ** Replies that are read back *)

Section ReplyFacts.

Lemma socksuccess_ok (rest out : string) :
  socksuccess {| incoming := Wire.status 0 +:+ rest; outgoing := out |}
  = (Ok tt, {| incoming := rest; outgoing := out |}).
Proof. rewrite status_0_append, socksuccess_status. reflexivity. Qed.

Lemma socklong_u64 (v : Z) (rest out : string) :
  0 <= v < 2 ^ 64 ->
  socklong {| incoming := Wire.u64 v +:+ rest; outgoing := out |}
  = (Ok v, {| incoming := rest; outgoing := out |}).
Proof.
  intros H. unfold socklong, bind, Wire.u64.
  replace 8 with (Bytes.len (Struct.be_bytes 8 v))
    by (unfold Bytes.len; now rewrite length_be_bytes).
  rewrite sockrecv_exact. unfold pure.
  rewrite unpack_first_Q by apply length_be_bytes.
  rewrite be_value_be_bytes; [reflexivity | exact H].
Qed.

Lemma concat_empty_cons (x : string) (l : list string) :
  String.concat "" (x :: l) = x +:+ String.concat "" l.
Proof.
  destruct l as [|y l]; cbn [String.concat]; [now rewrite append_nil_r |].
  reflexivity.
Qed.

Lemma join_cons (x : string) (l : list string) :
  Bytes.join (x :: l) = x +:+ Bytes.join l.
Proof. apply concat_empty_cons. Qed.

Lemma join_app (l1 l2 : list string) :
  Bytes.join (l1 ++ l2) = Bytes.join l1 +:+ Bytes.join l2.
Proof.
  induction l1 as [|x l1 IH]; [reflexivity |].
  cbn [app]. rewrite !join_cons, IH, append_assoc. reflexivity.
Qed.

(** [sockstr] run [length items] times reads the length-prefixed strings
    back. *)
Lemma repeatM_sockstr (items : list string) (rest out : string) :
  Forall (fun k => Bytes.len k < 2 ^ 32) items ->
  repeatM (length items) sockstr
    {| incoming := String.concat "" (Wire.lstr <$> items) +:+ rest;
       outgoing := out |}
  = (Ok items, {| incoming := rest; outgoing := out |}).
Proof.
  induction 1 as [|k items Hk Hitems IH]; [reflexivity |].
  cbn [length repeatM fmap list_fmap]. rewrite concat_empty_cons, append_assoc.
  unfold bind at 1. rewrite sockstr_lstr by exact Hk.
  unfold bind at 1. fold (fmap (M := list) Wire.lstr items).
  rewrite IH. reflexivity.
Qed.

Lemma sockstrpair_pair (k v rest out : string) :
  Bytes.len k < 2 ^ 32 -> Bytes.len v < 2 ^ 32 ->
  sockstrpair
    {| incoming := Wire.u32 (Bytes.len k) +:+ Wire.u32 (Bytes.len v)
                   +:+ k +:+ v +:+ rest;
       outgoing := out |}
  = (Ok (k, v), {| incoming := rest; outgoing := out |}).
Proof.
  intros Hk Hv. pose proof (len_nonneg k). pose proof (len_nonneg v).
  unfold sockstrpair, bind.
  rewrite socklen_u32 by lia. rewrite socklen_u32 by lia.
  rewrite sockrecv_exact, sockrecv_exact. reflexivity.
Qed.

End ReplyFacts.

(** ** Frames *)

Section MoreFrames.

Lemma _t1_frame (code : Z) (key : string) :
  0 <= code < 256 -> fits32 key ->
  _t1 code key = Ok [frame_head code (Wire.u32 (Bytes.len key)); key].
Proof.
  unfold fits32. intros Hcode Hkey. pose proof (len_nonneg key).
  unfold _t1. pack_frame. rewrite append_nil_r.
  rewrite (be_bytes_1 code) by lia. reflexivity.
Qed.

Lemma _t2_frame (code : Z) (key value : string) :
  0 <= code < 256 -> fits32 key -> fits32 value ->
  _t2 code key value
  = Ok [frame_head code
          (Wire.u32 (Bytes.len key) +:+ Wire.u32 (Bytes.len value));
        key; value].
Proof.
  unfold fits32. intros Hcode Hkey Hvalue.
  pose proof (len_nonneg key). pose proof (len_nonneg value).
  unfold _t2. pack_frame. rewrite append_nil_r.
  rewrite (be_bytes_1 code) by lia. reflexivity.
Qed.


Lemma extend_len_prefixed_ok (lst : list string) :
  Forall fits32 lst ->
  forall outlst,
    extend_len_prefixed outlst lst
    = Ok (outlst ++ mjoin ((fun k => [Wire.u32 (Bytes.len k); k]) <$> lst)).
Proof.
  induction 1 as [|k lst Hk Hlst IH]; intros outlst.
  - cbn. now rewrite app_nil_r.
  - cbn [extend_len_prefixed]. unfold fits32 in Hk. pose proof (len_nonneg k).
    pack_frame. rewrite append_nil_r. rewrite IH.
    cbn [fmap list_fmap mjoin list_join]. rewrite <- app_assoc. reflexivity.
Qed.

Lemma join_len_prefixed (lst : list string) :
  Bytes.join (mjoin ((fun k => [Wire.u32 (Bytes.len k); k]) <$> lst))
  = String.concat "" (Wire.lstr <$> lst).
Proof.
  induction lst as [|k lst IH]; [reflexivity |].
  cbn [fmap list_fmap mjoin list_join app].
  unfold Bytes.join in *. rewrite !concat_empty_cons. unfold Wire.lstr at 1.
  rewrite append_assoc. f_equal. f_equal. exact IH.
Qed.

Lemma _t1FN_frame (code : Z) (func : string) (opts : Z) (args : list string) :
  0 <= code < 256 -> fits32 func -> 0 <= opts < 2 ^ 32 ->
  Z.of_nat (length args) < 2 ^ 32 -> Forall fits32 args ->
  _t1FN code func opts args
  = Ok ([frame_head code
           (Wire.u32 (Bytes.len func) +:+ Wire.u32 opts
            +:+ Wire.u32 (Z.of_nat (length args)));
         func]
        ++ mjoin ((fun k => [Wire.u32 (Bytes.len k); k]) <$> args)).
Proof.
  unfold fits32 at 1. intros Hcode Hfunc Hopts Hn Hargs.
  pose proof (len_nonneg func).
  unfold _t1FN. pack_frame. rewrite append_nil_r.
  rewrite (be_bytes_1 code) by lia.
  now rewrite extend_len_prefixed_ok.
Qed.

Lemma _tN_frame (code : Z) (klst : list string) :
  0 <= code < 256 -> Z.of_nat (length klst) < 2 ^ 32 -> Forall fits32 klst ->
  _tN code klst
  = Ok ([frame_head code (Wire.u32 (Z.of_nat (length klst)))]
        ++ mjoin ((fun k => [Wire.u32 (Bytes.len k); k]) <$> klst)).
Proof.
  intros Hcode Hn Hklst.
  unfold _tN. pack_frame. rewrite append_nil_r.
  rewrite (be_bytes_1 code) by lia.
  now rewrite extend_len_prefixed_ok.
Qed.

End MoreFrames.

(** ** Transport and commands *)


Lemma outgoing_bind_ret {A B} (m : M sock A) (g : A -> B) (s : sock) :
  outgoing (snd ((x <- m ;; ret (g x)) s)) = outgoing (snd (m s)).
Proof. unfold bind. destruct (m s) as [[a|e|] s1]; reflexivity. Qed.

Lemma reads_only_misc_tail :
  reads_only (numrecs <- try_finally socksuccess socklen ;;
              repeatM (Z.to_nat numrecs) sockstr).
Proof.
  apply reads_only_bind.
  - apply reads_only_try_finally;
      [apply reads_only_socksuccess | apply reads_only_socklen].
  - intros n. apply reads_only_repeatM, reads_only_sockstr.
Qed.

Ltac reads_only_tail :=
  lazymatch goal with
  | |- reads_only socksuccess => apply reads_only_socksuccess
  | |- reads_only sockstr => apply reads_only_sockstr
  | |- reads_only socklen => apply reads_only_socklen
  | |- reads_only socklong => apply reads_only_socklong
  | |- reads_only sockdouble => apply reads_only_sockdouble
  | |- reads_only sockstrpair => apply reads_only_sockstrpair
  | |- reads_only (repeatM _ _) => apply reads_only_repeatM; reads_only_tail
  | |- reads_only (try_finally _ _) =>
      apply reads_only_try_finally; reads_only_tail
  | |- reads_only (bind _ _) =>
      apply reads_only_bind; [reads_only_tail | intros ?; reads_only_tail]
  end.

(** X2: whatever the server answers, a command has written exactly the
    frame it built, once; and a command whose frame cannot be packed raises
    before anything is written or read. *)
Theorem command_writes_exactly_its_frame (c : call) (s : sock) :
  (forall f, frame_of c = Ok f ->
             outgoing (snd (run c s)) = outgoing s +:+ Bytes.join f)
  /\ (forall e, frame_of c = Raise e -> run c s = (Raise e, s)).
Proof.
  split.
  - intros f Hf.
    destruct c; cbn [frame_of] in Hf; cbn [run];
      rewrite outgoing_bind_ret;
      unfold Tyrant.put, Tyrant.putkeep, Tyrant.putcat, Tyrant.putshl,
        Tyrant.out, Tyrant.get, Tyrant.mget, Tyrant.vsiz, Tyrant.iterinit,
        Tyrant.iternext, Tyrant.fwmkeys, Tyrant.addint, Tyrant.adddouble,
        Tyrant.ext, Tyrant.sync, Tyrant.vanish, Tyrant.copy, Tyrant.restore,
        Tyrant.setmst, Tyrant.rnum, Tyrant.size, Tyrant.stat, Tyrant.misc;
      apply (command_writes_frame _ f _ s Hf); reads_only_tail.
  - intros e He.
    destruct c; cbn [frame_of] in He; cbn [run];
      unfold Tyrant.put, Tyrant.putkeep, Tyrant.putcat, Tyrant.putshl,
        Tyrant.out, Tyrant.get, Tyrant.mget, Tyrant.vsiz, Tyrant.iterinit,
        Tyrant.iternext, Tyrant.fwmkeys, Tyrant.addint, Tyrant.adddouble,
        Tyrant.ext, Tyrant.sync, Tyrant.vanish, Tyrant.copy, Tyrant.restore,
        Tyrant.setmst, Tyrant.rnum, Tyrant.size, Tyrant.stat, Tyrant.misc;
      unfold bind, pure; rewrite He; reflexivity.
Qed.

Lemma command_writes_witness :
  outgoing (snd (run (DoVsiz "k") {| incoming := "junk"; outgoing := "sent" |}))
  = "sent" +:+ frame_head C.vsiz (Wire.u32 1) +:+ "k"
  /\ run (DoPutshl "k" "v" (-1)) {| incoming := "junk"; outgoing := "sent" |}
     = (Raise StructError, {| incoming := "junk"; outgoing := "sent" |}).
Proof.
  split.
  - exact (proj1 (command_writes_exactly_its_frame
                    (DoVsiz "k") {| incoming := "junk"; outgoing := "sent" |})
                 _ eq_refl).
  - exact (proj2 (command_writes_exactly_its_frame
                    (DoPutshl "k" "v" (-1))
                    {| incoming := "junk"; outgoing := "sent" |})
                 _ eq_refl).
Defined.

(** X3: [putnr] is fire and forget: it writes its frame (magic, opcode
    0x18, both lengths, key, value) and returns without reading a byte of
    what the server sent. *)
Theorem putnr_reads_nothing (key value : string) (s : sock) :
  fits32 key -> fits32 value ->
  Tyrant.putnr key value s
  = (Ok tt,
     {| incoming := incoming s;
        outgoing := outgoing s +:+
          frame_head C.putnr
            (Wire.u32 (Bytes.len key) +:+ Wire.u32 (Bytes.len value))
          +:+ key +:+ value |}).
Proof.
  intros Hkey Hvalue. unfold Tyrant.putnr, bind, pure.
  rewrite _t2_frame by (first [exact Hkey | exact Hvalue | now vm_compute]).
  unfold socksend, sendall. rewrite !join_cons.
  change (Bytes.join []) with "". rewrite append_nil_r. reflexivity.
Qed.

Lemma putnr_witness :
  Tyrant.putnr "k" "val" {| incoming := "pending"; outgoing := "" |}
  = (Ok tt,
     {| incoming := "pending";
        outgoing := frame_head 24 (Wire.u32 1 +:+ Wire.u32 3) +:+ "k" +:+ "val" |}).
Proof.
  exact (putnr_reads_nothing "k" "val" {| incoming := "pending"; outgoing := "" |}
           ltac:(now vm_compute) ltac:(now vm_compute)).
Defined.

Lemma repeatM_sockstrpair (pairs : list (string * string)) (rest out : string) :
  Forall (fun p => fits32 p.1 /\ fits32 p.2) pairs ->
  repeatM (length pairs) sockstrpair
    {| incoming := String.concat "" (wire_pair <$> pairs) +:+ rest;
       outgoing := out |}
  = (Ok pairs, {| incoming := rest; outgoing := out |}).
Proof.
  induction 1 as [|[k v] pairs [Hk Hv] Hpairs IH]; [reflexivity |].
  cbn [length repeatM fmap list_fmap]. rewrite concat_empty_cons.
  unfold wire_pair at 1. cbn [fst snd]. rewrite !append_assoc.
  unfold bind at 1. rewrite sockstrpair_pair by assumption.
  unfold bind at 1. fold (fmap (M := list) wire_pair pairs).
  rewrite IH. reflexivity.
Qed.

(** The successful exchange of [get]. *)
Lemma get_ok (key value rest out : string) :
  fits32 key -> fits32 value ->
  Tyrant.get key
    {| incoming := Wire.status 0 +:+ Wire.lstr value +:+ rest; outgoing := out |}
  = (Ok value,
     {| incoming := rest;
        outgoing := out +:+ frame_head C.get (Wire.u32 (Bytes.len key)) +:+ key |}).
Proof.
  intros Hkey Hvalue. unfold Tyrant.get, bind, pure.
  rewrite _t1_frame by (first [exact Hkey | now vm_compute]).
  unfold socksend, sendall. cbn [incoming outgoing].
  rewrite socksuccess_ok, sockstr_lstr by exact Hvalue.
  rewrite join_2. reflexivity.
Qed.

(** X4: [get] on a reply that opens with status 0 and carries the value as
    a length-prefixed string returns that value (the empty one included),
    consumes exactly that reply and has written the single-key frame. *)
Theorem get_returns_value (key value rest out : string) :
  fits32 key -> fits32 value ->
  Tyrant.get key
    {| incoming := Wire.status 0 +:+ Wire.lstr value +:+ rest; outgoing := out |}
  = (Ok value,
     {| incoming := rest;
        outgoing := out +:+ frame_head C.get (Wire.u32 (Bytes.len key)) +:+ key |}).
Proof. apply get_ok. Qed.

Lemma get_witness :
  Tyrant.get "k"
    {| incoming := Wire.status 0 +:+ Wire.lstr "" +:+ "next"; outgoing := "" |}
  = (Ok "",
     {| incoming := "next";
        outgoing := frame_head C.get (Wire.u32 1) +:+ "k" |}).
Proof.
  exact (get_returns_value "k" "" "next" ""
           ltac:(now vm_compute) ltac:(now vm_compute)).
Defined.

(** X5: [rnum] and [size] return the 8-byte big-endian integer that follows
    a status of 0, for every value of the unsigned 64-bit range. *)
Theorem rnum_and_size_decode_u64 (n : Z) (rest out : string) :
  0 <= n < 2 ^ 64 ->
  Tyrant.rnum
    {| incoming := Wire.status 0 +:+ Wire.u64 n +:+ rest; outgoing := out |}
  = (Ok n, {| incoming := rest; outgoing := out +:+ frame0 C.rnum |})
  /\ Tyrant.size
       {| incoming := Wire.status 0 +:+ Wire.u64 n +:+ rest; outgoing := out |}
     = (Ok n, {| incoming := rest; outgoing := out +:+ frame0 C.size |}).
Proof.
  intros Hn. split.
  - unfold Tyrant.rnum, bind, pure.
    change (_t0 C.rnum) with (Ok [frame0 C.rnum]).
    unfold socksend, sendall. cbn [incoming outgoing].
    now rewrite socksuccess_ok, socklong_u64.
  - unfold Tyrant.size, bind, pure.
    change (_t0 C.size) with (Ok [frame0 C.size]).
    unfold socksend, sendall. cbn [incoming outgoing].
    now rewrite socksuccess_ok, socklong_u64.
Qed.

Lemma rnum_witness :
  fst (Tyrant.rnum
         {| incoming := Wire.status 0 +:+ Wire.u64 18446744073709551615;
            outgoing := "" |})
  = Ok 18446744073709551615.
Proof.
  pose proof (proj1 (rnum_and_size_decode_u64 18446744073709551615 "" ""
                       ltac:(lia))) as H.
  rewrite append_nil_r in H. rewrite H. reflexivity.
Defined.

(** X6: [mget] reads the record count and then that many key/value pairs
    (two lengths, then the two strings), in the order the server sent them;
    its request is the key-list frame: count, then each key with its
    length. *)
Theorem mget_returns_pairs
        (klst : list string) (pairs : list (string * string))
        (rest out : string) :
  Forall fits32 klst -> Z.of_nat (length klst) < 2 ^ 32 ->
  Forall (fun p => fits32 p.1 /\ fits32 p.2) pairs ->
  Z.of_nat (length pairs) < 2 ^ 32 ->
  Tyrant.mget klst {| incoming := mget_reply pairs +:+ rest; outgoing := out |}
  = (Ok pairs,
     {| incoming := rest;
        outgoing := out +:+ frame_head C.mget (Wire.u32 (Z.of_nat (length klst)))
                    +:+ String.concat "" (Wire.lstr <$> klst) |}).
Proof.
  intros Hklst Hn Hpairs Hm. unfold Tyrant.mget, bind at 1, pure.
  rewrite _tN_frame by (first [assumption | now vm_compute]).
  unfold bind at 1. unfold socksend, sendall. cbn [incoming outgoing].
  unfold mget_reply. rewrite !append_assoc.
  unfold bind at 1. rewrite socksuccess_ok.
  unfold bind at 1. rewrite socklen_u32 by lia.
  rewrite Nat2Z.id, repeatM_sockstrpair by exact Hpairs.
  cbn [app]. rewrite join_cons, join_len_prefixed. reflexivity.
Qed.

Lemma mget_witness :
  fst (Tyrant.mget ["a"; "b"; "c"]
         {| incoming := mget_reply [("c", "3"); ("a", "")]; outgoing := "" |})
  = Ok [("c", "3"); ("a", "")].
Proof.
  pose proof (mget_returns_pairs ["a"; "b"; "c"] [("c", "3"); ("a", "")] "" ""
                ltac:(repeat constructor) ltac:(now vm_compute)
                ltac:(repeat constructor) ltac:(now vm_compute)) as H.
  rewrite append_nil_r in H. rewrite H. reflexivity.
Defined.

(** The successful exchange of [misc]. *)
Lemma misc_ok
        (func : string) (opts : Z) (args items : list string)
        (rest out : string) :
  fits32 func -> 0 <= opts < 2 ^ 32 ->
  Z.of_nat (length args) < 2 ^ 32 -> Forall fits32 args ->
  Z.of_nat (length items) < 2 ^ 32 -> Forall fits32 items ->
  Tyrant.misc func opts args
    {| incoming := misc_reply items +:+ rest; outgoing := out |}
  = (Ok items,
     {| incoming := rest;
        outgoing := out +:+
          frame_head C.misc
            (Wire.u32 (Bytes.len func) +:+ Wire.u32 opts
             +:+ Wire.u32 (Z.of_nat (length args)))
          +:+ func +:+ String.concat "" (Wire.lstr <$> args) |}).
Proof.
  intros Hfunc Hopts Hn Hargs Hm Hitems. unfold Tyrant.misc, bind at 1, pure.
  rewrite _t1FN_frame by (first [assumption | now vm_compute]).
  unfold bind at 1. unfold socksend, sendall. cbn [incoming outgoing].
  unfold misc_reply. rewrite !append_assoc.
  unfold bind at 1. unfold try_finally. rewrite socksuccess_ok.
  rewrite socklen_u32 by lia.
  rewrite Nat2Z.id, repeatM_sockstr by exact Hitems.
  cbn [app]. rewrite !join_cons, join_len_prefixed. reflexivity.
Qed.

(** X7: [misc] on a reply of status 0, a record count and that many
    length-prefixed strings returns those strings in order; its request is
    the function-call frame: the three 4-byte fields (name length, options,
    argument count), the name, then each argument with its length. *)
Theorem misc_returns_items
        (func : string) (opts : Z) (args items : list string)
        (rest out : string) :
  fits32 func -> 0 <= opts < 2 ^ 32 ->
  Z.of_nat (length args) < 2 ^ 32 -> Forall fits32 args ->
  Z.of_nat (length items) < 2 ^ 32 -> Forall fits32 items ->
  Tyrant.misc func opts args
    {| incoming := misc_reply items +:+ rest; outgoing := out |}
  = (Ok items,
     {| incoming := rest;
        outgoing := out +:+
          frame_head C.misc
            (Wire.u32 (Bytes.len func) +:+ Wire.u32 opts
             +:+ Wire.u32 (Z.of_nat (length args)))
          +:+ func +:+ String.concat "" (Wire.lstr <$> args) |}).
Proof. apply misc_ok. Qed.

Lemma misc_witness :
  fst (Tyrant.misc "getlist" 1 ["a"; "b"]
         {| incoming := misc_reply ["a"; "1"; "b"; ""]; outgoing := "" |})
  = Ok ["a"; "1"; "b"; ""].
Proof.
  pose proof (misc_returns_items "getlist" 1 ["a"; "b"] ["a"; "1"; "b"; ""] "" ""
                ltac:(now vm_compute) ltac:(lia) ltac:(now vm_compute)
                ltac:(repeat constructor) ltac:(now vm_compute)
                ltac:(repeat constructor)) as H.
  rewrite append_nil_r in H. rewrite H. reflexivity.
Defined.

(** ** The mapping wrapper *)

Section MappingFacts.

Lemma vsiz_ok (key : string) (n : Z) (rest out : string) :
  fits32 key -> 0 <= n < 2 ^ 32 ->
  Tyrant.vsiz key
    {| incoming := Wire.status 0 +:+ Wire.u32 n +:+ rest; outgoing := out |}
  = (Ok n,
     {| incoming := rest;
        outgoing := out +:+ frame_head C.vsiz (Wire.u32 (Bytes.len key)) +:+ key |}).
Proof.
  intros Hkey Hn. unfold Tyrant.vsiz, bind, pure.
  rewrite _t1_frame by (first [exact Hkey | now vm_compute]).
  unfold socksend, sendall. cbn [incoming outgoing].
  rewrite socksuccess_ok, socklen_u32 by exact Hn.
  rewrite join_2. reflexivity.
Qed.

Variables (code : ascii) (rest out : string).
Hypothesis failed : Bytes.ord code <> 0.

Lemma vsiz_fails (key : string) :
  fits32 key ->
  Tyrant.vsiz key {| incoming := String code rest; outgoing := out |}
  = (Raise (TyrantError (Bytes.ord code)),
     {| incoming := rest;
        outgoing := out +:+ frame_head C.vsiz (Wire.u32 (Bytes.len key)) +:+ key |}).
Proof using failed.
  intros Hkey. unfold Tyrant.vsiz.
  rewrite (send_status_fails_before code rest out failed _ _ socklen
             (_t1_frame C.vsiz key ltac:(now vm_compute) Hkey)).
  rewrite join_2. reflexivity.
Qed.

Lemma get_fails (key : string) :
  fits32 key ->
  Tyrant.get key {| incoming := String code rest; outgoing := out |}
  = (Raise (TyrantError (Bytes.ord code)),
     {| incoming := rest;
        outgoing := out +:+ frame_head C.get (Wire.u32 (Bytes.len key)) +:+ key |}).
Proof using failed.
  intros Hkey. unfold Tyrant.get.
  rewrite (send_status_fails_before code rest out failed _ _ sockstr
             (_t1_frame C.get key ltac:(now vm_compute) Hkey)).
  rewrite join_2. reflexivity.
Qed.

Lemma out_fails (key : string) :
  fits32 key ->
  Tyrant.out key {| incoming := String code rest; outgoing := out |}
  = (Raise (TyrantError (Bytes.ord code)),
     {| incoming := rest;
        outgoing := out +:+ frame_head C.out (Wire.u32 (Bytes.len key)) +:+ key |}).
Proof using failed.
  intros Hkey. unfold Tyrant.out.
  rewrite (send_status_fails code rest out failed _ _
             (_t1_frame C.out key ltac:(now vm_compute) Hkey)).
  rewrite join_2. reflexivity.
Qed.

Lemma putkeep_fails (key value : string) :
  fits32 key -> fits32 value ->
  Tyrant.putkeep key value {| incoming := String code rest; outgoing := out |}
  = (Raise (TyrantError (Bytes.ord code)),
     {| incoming := rest;
        outgoing := out +:+
          frame_head C.putkeep
            (Wire.u32 (Bytes.len key) +:+ Wire.u32 (Bytes.len value))
          +:+ key +:+ value |}).
Proof using failed.
  intros Hkey Hvalue. unfold Tyrant.putkeep.
  rewrite (send_status_fails code rest out failed _ _
             (_t2_frame C.putkeep key value ltac:(now vm_compute) Hkey Hvalue)).
  rewrite !join_cons. change (Bytes.join []) with "".
  rewrite append_nil_r. reflexivity.
Qed.

End MappingFacts.

Lemma putkeep_ok (key value rest out : string) :
  fits32 key -> fits32 value ->
  Tyrant.putkeep key value
    {| incoming := Wire.status 0 +:+ rest; outgoing := out |}
  = (Ok tt,
     {| incoming := rest;
        outgoing := out +:+
          frame_head C.putkeep
            (Wire.u32 (Bytes.len key) +:+ Wire.u32 (Bytes.len value))
          +:+ key +:+ value |}).
Proof.
  intros Hkey Hvalue. unfold Tyrant.putkeep, bind, pure.
  rewrite _t2_frame by (first [assumption | now vm_compute]).
  unfold socksend, sendall. cbn [incoming outgoing].
  rewrite socksuccess_ok. rewrite !join_cons. change (Bytes.join []) with "".
  rewrite append_nil_r. reflexivity.
Qed.

(** X8: [key in self] and [get_size(key)] ask the same question with one
    [vsiz] exchange: a failed status makes the first answer [False] and the
    second raise [KeyError(key)] -- [TyrantError] never leaves either --
    and a status of 0 makes the first answer [True] and the second return
    the 4-byte size. *)
Theorem contains_and_get_size_by_status
        (key : string) (code : ascii) (n : Z) (rest out : string) :
  fits32 key ->
  let sent := out +:+ frame_head C.vsiz (Wire.u32 (Bytes.len key)) +:+ key in
  (Bytes.ord code <> 0 ->
   PyTyrant.__contains__ key {| incoming := String code rest; outgoing := out |}
   = (Ok false, {| incoming := rest; outgoing := sent |})
   /\ PyTyrant.get_size key {| incoming := String code rest; outgoing := out |}
      = (Raise (KeyError key), {| incoming := rest; outgoing := sent |}))
  /\ (0 <= n < 2 ^ 32 ->
      PyTyrant.__contains__ key
        {| incoming := Wire.status 0 +:+ Wire.u32 n +:+ rest; outgoing := out |}
      = (Ok true, {| incoming := rest; outgoing := sent |})
      /\ PyTyrant.get_size key
           {| incoming := Wire.status 0 +:+ Wire.u32 n +:+ rest; outgoing := out |}
         = (Ok n, {| incoming := rest; outgoing := sent |})).
Proof.
  intros Hkey sent. split.
  - intros Hcode.
    unfold PyTyrant.__contains__, PyTyrant.get_size, try_except_TyrantError, bind.
    rewrite (vsiz_fails code rest out Hcode key Hkey). split; reflexivity.
  - intros Hn.
    unfold PyTyrant.__contains__, PyTyrant.get_size, try_except_TyrantError, bind.
    rewrite (vsiz_ok key n rest out Hkey Hn). split; reflexivity.
Qed.

Lemma contains_witness :
  fst (PyTyrant.__contains__ "k"
         {| incoming := Wire.status 1; outgoing := "" |}) = Ok false
  /\ fst (PyTyrant.get_size "k"
            {| incoming := Wire.status 0 +:+ Wire.u32 5; outgoing := "" |}) = Ok 5.
Proof.
  destruct (contains_and_get_size_by_status "k" (Bytes.byte_of 1) 5 "" ""
              ltac:(now vm_compute)) as (Hmiss & Hhit).
  change (Wire.status 1) with (String (Bytes.byte_of 1) "").
  split.
  - rewrite (proj1 (Hmiss ltac:(vm_compute; discriminate))). reflexivity.
  - pose proof (proj2 (Hhit ltac:(lia))) as H.
    rewrite append_nil_r in H. rewrite H. reflexivity.
Defined.

(** X9: item access turns the protocol error into a missing key:
    [self[key]] and [del self[key]] raise [KeyError(key)] on a failed
    status after their one exchange, and [self[key]] returns the stored
    value on a status of 0. *)
Theorem getitem_delitem_missing_key
        (key : string) (code : ascii) (value rest out : string) :
  fits32 key ->
  (Bytes.ord code <> 0 ->
   PyTyrant.__getitem__ key {| incoming := String code rest; outgoing := out |}
   = (Raise (KeyError key),
      {| incoming := rest;
         outgoing := out +:+ frame_head C.get (Wire.u32 (Bytes.len key)) +:+ key |})
   /\ PyTyrant.__delitem__ key {| incoming := String code rest; outgoing := out |}
      = (Raise (KeyError key),
         {| incoming := rest;
            outgoing := out +:+ frame_head C.out (Wire.u32 (Bytes.len key))
                        +:+ key |}))
  /\ (fits32 value ->
      PyTyrant.__getitem__ key
        {| incoming := Wire.status 0 +:+ Wire.lstr value +:+ rest;
           outgoing := out |}
      = (Ok value,
         {| incoming := rest;
            outgoing := out +:+ frame_head C.get (Wire.u32 (Bytes.len key))
                        +:+ key |})).
Proof.
  intros Hkey. split.
  - intros Hcode.
    unfold PyTyrant.__getitem__, PyTyrant.__delitem__, try_except_TyrantError.
    rewrite (get_fails code rest out Hcode key Hkey).
    rewrite (out_fails code rest out Hcode key Hkey). split; reflexivity.
  - intros Hvalue. unfold PyTyrant.__getitem__, try_except_TyrantError.
    rewrite (get_ok key value rest out Hkey Hvalue). reflexivity.
Qed.

Lemma getitem_missing_witness :
  fst (PyTyrant.__getitem__ "k" {| incoming := Wire.status 1; outgoing := "" |})
  = Raise (KeyError "k")
  /\ fst (PyTyrant.__delitem__ "k" {| incoming := Wire.status 1; outgoing := "" |})
     = Raise (KeyError "k").
Proof.
  destruct (getitem_delitem_missing_key "k" (Bytes.byte_of 1) "" "" ""
              ltac:(now vm_compute)) as (Hmiss & _).
  destruct (Hmiss ltac:(vm_compute; discriminate)) as (Hget & Hdel).
  change (Wire.status 1) with (String (Bytes.byte_of 1) "").
  split; [rewrite Hget | rewrite Hdel]; reflexivity.
Defined.

(** X10: [setdefault(key, value)] first tries [putkeep]: on a status of 0
    it returns [value] after that one exchange; on a failed status it goes
    on with [get] and returns the value the server holds, or raises
    [KeyError(key)] when that fails too. *)
Theorem setdefault_keeps_existing
        (key value : string) (code code' : ascii) (held rest out : string) :
  fits32 key -> fits32 value ->
  let putkeep_frame :=
    frame_head C.putkeep
      (Wire.u32 (Bytes.len key) +:+ Wire.u32 (Bytes.len value))
    +:+ key +:+ value in
  let get_frame := frame_head C.get (Wire.u32 (Bytes.len key)) +:+ key in
  PyTyrant.setdefault key value
    {| incoming := Wire.status 0 +:+ rest; outgoing := out |}
  = (Ok value, {| incoming := rest; outgoing := out +:+ putkeep_frame |})
  /\ (Bytes.ord code <> 0 -> fits32 held ->
      PyTyrant.setdefault key value
        {| incoming := String code (Wire.status 0 +:+ Wire.lstr held +:+ rest);
           outgoing := out |}
      = (Ok held,
         {| incoming := rest;
            outgoing := (out +:+ putkeep_frame) +:+ get_frame |}))
  /\ (Bytes.ord code <> 0 -> Bytes.ord code' <> 0 ->
      PyTyrant.setdefault key value
        {| incoming := String code (String code' rest); outgoing := out |}
      = (Raise (KeyError key),
         {| incoming := rest;
            outgoing := (out +:+ putkeep_frame) +:+ get_frame |})).
Proof.
  intros Hkey Hvalue putkeep_frame get_frame. split; [| split].
  - unfold PyTyrant.setdefault, try_except_TyrantError, bind.
    rewrite (putkeep_ok key value rest out Hkey Hvalue). reflexivity.
  - intros Hcode Hheld.
    unfold PyTyrant.setdefault, try_except_TyrantError at 1, bind.
    rewrite (putkeep_fails code _ out Hcode key value Hkey Hvalue).
    unfold PyTyrant.__getitem__, try_except_TyrantError.
    rewrite (get_ok key held rest _ Hkey Hheld). reflexivity.
  - intros Hcode Hcode'.
    unfold PyTyrant.setdefault, try_except_TyrantError at 1, bind.
    rewrite (putkeep_fails code _ out Hcode key value Hkey Hvalue).
    unfold PyTyrant.__getitem__, try_except_TyrantError.
    rewrite (get_fails code' rest _ Hcode' key Hkey). reflexivity.
Qed.

Lemma setdefault_witness :
  fst (PyTyrant.setdefault "k" "new"
         {| incoming := Wire.status 1 +:+ Wire.status 0 +:+ Wire.lstr "old";
            outgoing := "" |})
  = Ok "old".
Proof.
  destruct (setdefault_keeps_existing "k" "new" (Bytes.byte_of 1) (Bytes.byte_of 1)
              "old" "" "" ltac:(now vm_compute) ltac:(now vm_compute))
    as (_ & Hheld & _).
  pose proof (Hheld ltac:(vm_compute; discriminate) ltac:(now vm_compute)) as H.
  rewrite append_nil_r in H.
  change (Wire.status 1 +:+ Wire.status 0 +:+ Wire.lstr "old")
    with (String (Bytes.byte_of 1) (Wire.status 0 +:+ Wire.lstr "old")).
  rewrite H. reflexivity.
Defined.

Lemma extend_pairs_interleave (items : list (string * string)) :
  forall lst, PyTyrant.extend_pairs lst items = lst ++ interleave items.
Proof.
  induction items as [|[k v] items IH]; intros lst;
    cbn [PyTyrant.extend_pairs interleave].
  - now rewrite app_nil_r.
  - rewrite IH, <- app_assoc. reflexivity.
Qed.

Lemma interleave_fits (items : list (string * string)) :
  Forall (fun p => fits32 p.1 /\ fits32 p.2) items ->
  Forall fits32 (interleave items).
Proof.
  induction 1 as [|[k v] items [Hk Hv] Hitems IH]; cbn [interleave];
    repeat constructor; assumption.
Qed.

Lemma opts_of_range (no_update_log : bool) :
  0 <= PyTyrant.opts_of no_update_log < 2 ^ 32.
Proof. destruct no_update_log; now vm_compute. Qed.

(** X11: [multi_set] is one [misc('putlist')] call whose arguments are the
    keys and values in turn, [k1, v1, k2, v2, ...], in the order of the
    items; the option word is 1 with [no_update_log] and 0 without. *)
Theorem multi_set_sends_flattened_pairs
        (items : list (string * string)) (no_update_log : bool)
        (rest out : string) :
  Forall (fun p => fits32 p.1 /\ fits32 p.2) items ->
  Z.of_nat (length (interleave items)) < 2 ^ 32 ->
  PyTyrant.multi_set items no_update_log
    {| incoming := misc_reply [] +:+ rest; outgoing := out |}
  = (Ok tt,
     {| incoming := rest;
        outgoing := out +:+
          frame_head C.misc
            (Wire.u32 7 +:+ Wire.u32 (if no_update_log then 1 else 0)
             +:+ Wire.u32 (Z.of_nat (length (interleave items))))
          +:+ "putlist"
          +:+ String.concat "" (Wire.lstr <$> interleave items) |}).
Proof.
  intros Hitems Hn. unfold PyTyrant.multi_set. cbv zeta.
  rewrite extend_pairs_interleave. cbn [app]. unfold bind.
  rewrite (misc_ok "putlist" (PyTyrant.opts_of no_update_log)
             (interleave items) [] rest out
             ltac:(now vm_compute) (opts_of_range no_update_log) Hn
             (interleave_fits items Hitems) ltac:(now vm_compute)
             ltac:(constructor)).
  destruct no_update_log; reflexivity.
Qed.

Lemma multi_set_witness :
  fst (PyTyrant.multi_set [("a", "1"); ("b", "")] true
         {| incoming := misc_reply []; outgoing := "" |}) = Ok tt
  /\ outgoing (snd (PyTyrant.multi_set [("a", "1"); ("b", "")] true
                      {| incoming := misc_reply []; outgoing := "" |}))
     = frame_head C.misc (Wire.u32 7 +:+ Wire.u32 1 +:+ Wire.u32 4)
       +:+ "putlist"
       +:+ Wire.lstr "a" +:+ Wire.lstr "1" +:+ Wire.lstr "b" +:+ Wire.lstr "".
Proof.
  pose proof (multi_set_sends_flattened_pairs [("a", "1"); ("b", "")] true "" ""
                ltac:(repeat constructor) ltac:(now vm_compute)) as H.
  rewrite append_nil_r in H. rewrite H. split; reflexivity.
Defined.




(** X13: only the errors of [iternext] end the iteration silently: when
    [iterinit] itself is answered with a failed status, [keys()] raises
    [TyrantError] with that status to the caller, having sent the
    [iterinit] frame and no [iternext]. *)
Theorem iterkeys_propagates_iterinit_failure
        (code : ascii) (rest out : string) :
  Bytes.ord code <> 0 ->
  PyTyrant.keys {| incoming := String code rest; outgoing := out |}
  = (Raise (TyrantError (Bytes.ord code)),
     {| incoming := rest; outgoing := out +:+ frame0 C.iterinit |}).
Proof.
  intros Hcode. unfold PyTyrant.keys.
  cbn [PyTyrant.list_of_gen PyTyrant.iterkeys_next Nat.add].
  unfold bind at 1. unfold bind at 1. unfold Tyrant.iterinit.
  rewrite (send_status_fails code rest out Hcode
             (_t0 C.iterinit) [frame0 C.iterinit] eq_refl).
  reflexivity.
Qed.

Lemma iterkeys_iterinit_failure_witness :
  PyTyrant.keys {| incoming := String (Bytes.byte_of 1) "tail"; outgoing := "" |}
  = (Raise (TyrantError 1),
     {| incoming := "tail"; outgoing := frame0 C.iterinit |}).
Proof.
  exact (iterkeys_propagates_iterinit_failure (Bytes.byte_of 1) "tail" ""
           ltac:(vm_compute; discriminate)).
Defined.

(** ** Records of the table wrapper *)

Section RecordFacts.

Lemma dict_to_list_interleave (items : list (string * string)) :
  dict_to_list items = interleave items.
Proof.
  unfold dict_to_list.
  induction items as [|[k v] items IH]; [reflexivity |].
  cbn [fmap list_fmap mjoin list_join interleave fst snd app].
  f_equal. f_equal. exact IH.
Qed.

Lemma value_in_pairs_elem (items : list (string * string)) (k v : string) :
  value_in_pairs items k = Some v -> (k, v) ∈ items.
Proof.
  induction items as [|[k' v'] items IH]; cbn [value_in_pairs]; [discriminate |].
  destruct (value_in_pairs items k) as [v0|].
  - intros [= ->]. right. now apply IH.
  - destruct (decide (k' = k)) as [->|]; [| discriminate].
    intros [= ->]. left.
Qed.

Lemma value_in_pairs_NoDup (items : list (string * string)) (k v : string) :
  NoDup items.*1 -> (k, v) ∈ items -> value_in_pairs items k = Some v.
Proof.
  induction items as [|[k' v'] items IH]; intros Hnd Hin.
  - inversion Hin.
  - cbn [fmap list_fmap fst] in Hnd. apply NoDup_cons in Hnd as [Hfresh Hnd].
    cbn [value_in_pairs]. apply elem_of_cons in Hin as [[= <- <-] | Hin].
    + destruct (value_in_pairs items k) as [v0|] eqn:Hv0.
      * exfalso. apply Hfresh. apply value_in_pairs_elem in Hv0.
        apply list_elem_of_fmap. now exists (k, v0).
      * destruct (decide (k = k)); [reflexivity | contradiction].
    + now rewrite (IH Hnd Hin).
Qed.

(** Decoding the pairs of a dictionary, whatever their order, gives the
    dictionary. *)
Lemma list_to_dict_items (d : gmap string string)
      (items : list (string * string)) :
  items ≡ₚ map_to_list d ->
  list_to_dict (dict_to_list items) = Ok d.
Proof.
  intros Hperm. rewrite dict_to_list_interleave, list_to_dict_interleave.
  f_equal. apply map_eq. intros k. rewrite dict_lookup_value_in_pairs.
  assert (Hnd : NoDup items.*1).
  { rewrite Hperm. apply NoDup_fst_map_to_list. }
  destruct (d !! k) as [v|] eqn:Hd.
  - apply value_in_pairs_NoDup; [exact Hnd |].
    rewrite Hperm. now apply elem_of_map_to_list.
  - destruct (value_in_pairs items k) as [v|] eqn:Hv; [| reflexivity].
    apply value_in_pairs_elem in Hv. rewrite Hperm in Hv.
    apply elem_of_map_to_list in Hv. congruence.
Qed.

End RecordFacts.

(** X14: flattening a dictionary with [dict_to_list] and decoding the list
    with [list_to_dict] gives the dictionary back, in whatever order the
    dictionary hands out its items. *)
Theorem list_to_dict_inverts_dict_to_list
        (d : gmap string string) (items : list (string * string)) :
  items ≡ₚ map_to_list d ->
  list_to_dict (dict_to_list items) = Ok d.
Proof. apply list_to_dict_items. Qed.

Lemma list_to_dict_round_trip_witness :
  list_to_dict (dict_to_list [("name", "bob"); ("age", "7")])
  = Ok ({[ "age" := "7"; "name" := "bob" ]} : gmap string string).
Proof.
  apply (list_to_dict_inverts_dict_to_list
           ({[ "age" := "7"; "name" := "bob" ]} : gmap string string)).
  replace (map_to_list ({[ "age" := "7"; "name" := "bob" ]} : gmap string string))
    with [("age", "7"); ("name", "bob")] by (vm_compute; reflexivity).
  apply perm_swap.
Defined.

Lemma misc_key_frame (func key : string) :
  fits32 func -> fits32 key ->
  _t1FN C.misc func 0 [key]
  = Ok [frame_head C.misc
          (Wire.u32 (Bytes.len func) +:+ Wire.u32 0 +:+ Wire.u32 1);
        func; Wire.u32 (Bytes.len key); key].
Proof.
  intros Hfunc Hkey.
  rewrite _t1FN_frame;
    [reflexivity | now vm_compute | assumption | now vm_compute
    | now vm_compute | repeat constructor; assumption].
Qed.

(** X15: [self[key]] on a table sends [misc('get')] with the key and
    decodes the returned fields [c1, v1, c2, v2, ...] into the record with
    those columns; a failed status becomes [KeyError(key)] once the record
    count behind it is read; fields that do not pair up raise
    [IndexError]. *)
Theorem table_getitem_decodes_record
        (key : string) (d : gmap string string)
        (items : list (string * string)) (x : string)
        (code : ascii) (count rest out : string) :
  fits32 key ->
  Forall (fun p => fits32 p.1 /\ fits32 p.2) items ->
  Z.of_nat (length (interleave items)) + 1 < 2 ^ 32 ->
  let sent :=
    out +:+ frame_head C.misc (Wire.u32 3 +:+ Wire.u32 0 +:+ Wire.u32 1)
    +:+ "get" +:+ Wire.lstr key in
  (items ≡ₚ map_to_list d ->
   PyTableTyrant.__getitem__ key
     {| incoming := misc_reply (dict_to_list items) +:+ rest; outgoing := out |}
   = (Ok d, {| incoming := rest; outgoing := sent |}))
  /\ (Bytes.ord code <> 0 -> String.length count = 4%nat ->
      PyTableTyrant.__getitem__ key
        {| incoming := String code (count +:+ rest); outgoing := out |}
      = (Raise (KeyError key), {| incoming := rest; outgoing := sent |}))
  /\ (fits32 x ->
      PyTableTyrant.__getitem__ key
        {| incoming := misc_reply (interleave items ++ [x]) +:+ rest;
           outgoing := out |}
      = (Raise IndexError, {| incoming := rest; outgoing := sent |})).
Proof.
  intros Hkey Hitems Hn sent.
  assert (Hfits : Forall fits32 (interleave items)) by now apply interleave_fits.
  assert (Hsent : forall body : list string,
             out +:+ frame_head C.misc
                       (Wire.u32 (Bytes.len "get") +:+ Wire.u32 0
                        +:+ Wire.u32 (Z.of_nat (length [key])))
             +:+ "get" +:+ String.concat "" (Wire.lstr <$> [key]) = sent)
    by reflexivity.
  split; [| split].
  - intros Hperm.
    unfold PyTableTyrant.__getitem__, try_except_TyrantError, bind.
    rewrite dict_to_list_interleave.
    rewrite (misc_ok "get" 0 [key] (interleave items) rest out
               ltac:(now vm_compute) ltac:(lia) ltac:(now vm_compute)
               ltac:(repeat constructor; exact Hkey) ltac:(lia) Hfits).
    rewrite (Hsent []). unfold pure.
    rewrite <- dict_to_list_interleave, (list_to_dict_items d items Hperm).
    reflexivity.
  - intros Hcode Hcount.
    unfold PyTableTyrant.__getitem__, try_except_TyrantError, bind.
    rewrite (misc_status_fails code rest out Hcode "get" 0 [key] _ count
               (misc_key_frame "get" key ltac:(now vm_compute) Hkey) Hcount).
    unfold raise. rewrite !join_cons. change (Bytes.join []) with "".
    rewrite append_nil_r. reflexivity.
  - intros Hx.
    unfold PyTableTyrant.__getitem__, try_except_TyrantError, bind.
    rewrite (misc_ok "get" 0 [key] (interleave items ++ [x]) rest out
               ltac:(now vm_compute) ltac:(lia) ltac:(now vm_compute)
               ltac:(repeat constructor; exact Hkey)).
    + rewrite (Hsent []). unfold pure.
      rewrite list_to_dict_unpaired. reflexivity.
    + rewrite length_app. cbn [length]. lia.
    + apply Forall_app. split; [exact Hfits | repeat constructor; exact Hx].
Qed.

Lemma table_getitem_witness :
  fst (PyTableTyrant.__getitem__ "row1"
         {| incoming := misc_reply ["name"; "bob"; "age"; "7"]; outgoing := "" |})
  = Ok ({[ "age" := "7"; "name" := "bob" ]} : gmap string string).
Proof.
  destruct (table_getitem_decodes_record
              "row1" ({[ "age" := "7"; "name" := "bob" ]} : gmap string string)
              [("name", "bob"); ("age", "7")] "" (Bytes.byte_of 1) "" "" ""
              ltac:(now vm_compute) ltac:(repeat constructor)
              ltac:(now vm_compute)) as (H & _).
  assert (Hperm : [("name", "bob"); ("age", "7")]
                  ≡ₚ map_to_list
                       ({[ "age" := "7"; "name" := "bob" ]} : gmap string string)).
  { replace (map_to_list
               ({[ "age" := "7"; "name" := "bob" ]} : gmap string string))
      with [("age", "7"); ("name", "bob")] by (vm_compute; reflexivity).
    apply perm_swap. }
  specialize (H Hperm). rewrite append_nil_r in H.
  change (dict_to_list [("name", "bob"); ("age", "7")])
    with ["name"; "bob"; "age"; "7"] in H.
  rewrite H. reflexivity.
Defined.

(** X16: the table wrapper writes a record as one [misc] call whose
    arguments are the key followed by the flattened record: [put] for item
    assignment and [putcat] for [concat] without a width.  [concat] with a
    width, 0 included, raises [ValueError] and nothing is sent or read. *)
Theorem table_writes_key_then_record
        (key : string) (value : list (string * string))
        (no_update_log : bool) (rest out : string) :
  fits32 key ->
  Forall (fun p => fits32 p.1 /\ fits32 p.2) value ->
  Z.of_nat (length (interleave value)) + 1 < 2 ^ 32 ->
  let args := String.concat "" (Wire.lstr <$> key :: dict_to_list value) in
  let count := Wire.u32 (Z.of_nat (S (length (dict_to_list value)))) in
  PyTableTyrant.__setitem__ key value
    {| incoming := misc_reply [] +:+ rest; outgoing := out |}
  = (Ok tt,
     {| incoming := rest;
        outgoing := out +:+
          frame_head C.misc (Wire.u32 3 +:+ Wire.u32 0 +:+ count)
          +:+ "put" +:+ args |})
  /\ PyTableTyrant.concat key value None no_update_log
       {| incoming := misc_reply [] +:+ rest; outgoing := out |}
     = (Ok tt,
        {| incoming := rest;
           outgoing := out +:+
             frame_head C.misc
               (Wire.u32 6 +:+ Wire.u32 (if no_update_log then 1 else 0)
                +:+ count)
             +:+ "putcat" +:+ args |})
  /\ (forall (width : Z) (s : sock),
         PyTableTyrant.concat key value (Some width) no_update_log s
         = (Raise (ValueError "Cannot concat with a width on a table database"),
            s)).
Proof.
  intros Hkey Hvalue Hn args count.
  assert (Hfits : Forall fits32 (key :: dict_to_list value)).
  { constructor; [exact Hkey |]. rewrite dict_to_list_interleave.
    now apply interleave_fits. }
  assert (Hlen : Z.of_nat (length (key :: dict_to_list value)) < 2 ^ 32).
  { rewrite dict_to_list_interleave. cbn [length]. lia. }
  split; [| split].
  - unfold PyTableTyrant.__setitem__, bind. cbn [app].
    rewrite (misc_ok "put" 0 (key :: dict_to_list value) [] rest out
               ltac:(now vm_compute) ltac:(lia) Hlen Hfits
               ltac:(now vm_compute) ltac:(constructor)).
    reflexivity.
  - unfold PyTableTyrant.concat, bind. cbn [app].
    rewrite (misc_ok "putcat" (PyTyrant.opts_of no_update_log)
               (key :: dict_to_list value) [] rest out
               ltac:(now vm_compute) (opts_of_range no_update_log) Hlen Hfits
               ltac:(now vm_compute) ltac:(constructor)).
    destruct no_update_log; reflexivity.
  - reflexivity.
Qed.

Lemma table_writes_witness :
  outgoing (snd (PyTableTyrant.__setitem__ "row1" [("name", "bob")]
                   {| incoming := misc_reply []; outgoing := "" |}))
  = frame_head C.misc (Wire.u32 3 +:+ Wire.u32 0 +:+ Wire.u32 3)
    +:+ "put" +:+ Wire.lstr "row1" +:+ Wire.lstr "name" +:+ Wire.lstr "bob".
Proof.
  destruct (table_writes_key_then_record "row1" [("name", "bob")] false "" ""
              ltac:(now vm_compute) ltac:(repeat constructor)
              ltac:(now vm_compute)) as (H & _).
  rewrite append_nil_r in H. rewrite H. reflexivity.
Defined.

(** ** The result cache of a query *)

(** X17: the first [_get_results()] of a query runs the unbounded search
    and keeps the answer in a list of its own; from then on
    [_get_results()] and [len(query)] are answered from that list and the
    connection and the store stay as they are.  A search that raises
    leaves the cache unpopulated. *)
Theorem get_results_memoizes
        (w : world) (self : loc) (me : Query) (cs : list string) :
  w_queries w !! self = Some me ->
  _result_cache me = None ->
  w_lists w !! conditions me = Some cs ->
  (forall (items : list string) (s' : sock),
      Tyrant.misc "search" 0 cs (w_sock w) = (Ok items, s') ->
      exists (r : loc) (w' : world),
        Query._get_results self w = (Ok r, w')
        /\ (r ∉ dom (w_lists w))
        /\ w_lists w' !! r = Some items
        /\ w_sock w' = s'
        /\ Query._get_results self w' = (Ok r, w')
        /\ Query.__len__ self w' = (Ok (length items), w'))
  /\ (forall (e : exn) (s' : sock),
         Tyrant.misc "search" 0 cs (w_sock w) = (Raise e, s') ->
         Query._get_results self w
         = (Raise e, {| w_sock := s'; w_lists := w_lists w;
                        w_queries := w_queries w |})).
Proof.
  intros Hself Hcache Hcs. split.
  - intros items s' Hmisc.
    set (r := fresh (dom (w_lists w))).
    set (w' := {| w_sock := s';
                  w_lists := <[r := items]> (w_lists w);
                  w_queries :=
                    <[self := {| ptt := ptt me; conditions := conditions me;
                                 _result_cache := Some r |}]> (w_queries w) |}).
    assert (Hfirst : Query._get_results self w = (Ok r, w')).
    { unfold Query._get_results. unfold bind at 1. unfold get_query at 1.
      rewrite Hself, Hcache. unfold bind at 1. unfold get_list. rewrite Hcs.
      unfold bind at 1. unfold lift_sock. rewrite Hmisc.
      unfold bind, new_list, get_query, set_query, ret.
      cbn [w_sock w_lists w_queries]. rewrite Hself. reflexivity. }
    assert (Hagain : Query._get_results self w' = (Ok r, w')).
    { unfold Query._get_results, bind, get_query. cbn [w_queries w'].
      unfold w' at 1. cbn [w_queries]. rewrite lookup_insert_eq. reflexivity. }
    exists r, w'. split; [exact Hfirst |].
    split; [apply is_fresh |].
    split; [apply lookup_insert_eq |].
    split; [reflexivity |].
    split; [exact Hagain |].
    unfold Query.__len__. unfold bind at 1. rewrite Hagain.
    unfold bind, get_list. unfold w' at 1. cbn [w_lists].
    rewrite lookup_insert_eq. reflexivity.
  - intros e s' Hmisc.
    unfold Query._get_results. unfold bind at 1. unfold get_query at 1.
    rewrite Hself, Hcache. unfold bind at 1. unfold get_list. rewrite Hcs.
    unfold bind at 1. unfold lift_sock. rewrite Hmisc. reflexivity.
Qed.

Lemma get_results_witness :
  exists (r : loc) (w' : world),
    Query._get_results 1%positive example_world = (Ok r, w')
    /\ w_lists w' !! r = Some ["a"; "b"; "c"]
    /\ Query.__len__ 1%positive w' = (Ok 3%nat, w').
Proof.
  destruct (get_results_memoizes
              example_world 1%positive (mkQuery 9%positive 1%positive None)
              ["setorder" +:+ NUL +:+ "age" +:+ NUL +:+ "2"]
              eq_refl eq_refl eq_refl) as (Hok & _).
  destruct (Hok ["a"; "b"; "c"]
                (snd (Tyrant.misc "search" 0
                        ["setorder" +:+ NUL +:+ "age" +:+ NUL +:+ "2"]
                        (w_sock example_world)))
                ltac:(vm_compute; reflexivity))
    as (r & w' & Hfirst & _ & Hlist & _ & _ & Hlen).
  exists r, w'. split; [exact Hfirst |]. split; [exact Hlist | exact Hlen].
Defined.

(** ** Conditions of a query *)

Section SplitFacts.

Lemma prefix_cons (a b : ascii) (s t : string) :
  String.prefix (String a s) (String b t)
  = if Ascii.ascii_dec a b then String.prefix s t else false.
Proof. reflexivity. Qed.

Lemma prefix_nil (s : string) : String.prefix "" s = true.
Proof. now destruct s. Qed.

(** A string without the separator is one piece. *)
Lemma split_go_no_sep (s : string) :
  forall cur, occurs "__" s = false -> split_go "__" 0 cur s = [cur +:+ s].
Proof.
  induction s as [|c s IH]; intros cur Hocc.
  - cbn [split_go]. now rewrite append_nil_r.
  - cbn [occurs] in Hocc. apply orb_false_iff in Hocc as [Hpre Hocc].
    cbn [split_go]. rewrite Hpre. rewrite IH by exact Hocc.
    rewrite append_assoc. reflexivity.
Qed.

(** Whether [__] starts at a position inside [field] does not depend on
    what follows the first underscore after [field]. *)
Lemma prefix_dunder_field (c : ascii) (field op : string) :
  String.prefix "__" (String c (field +:+ "__" +:+ op))
  = String.prefix "__" (String c (field +:+ "_")).
Proof.
  rewrite !prefix_cons. destruct (Ascii.ascii_dec "_" c); [| reflexivity].
  destruct field as [|c' field].
  - rewrite !append_nil_l.
    change ("__" +:+ op) with (String "_" (String "_" op)).
    rewrite !prefix_cons. reflexivity.
  - rewrite !append_cons, !prefix_cons.
    destruct (Ascii.ascii_dec "_" c'); [| reflexivity].
    now rewrite !prefix_nil.
Qed.

Lemma split_go_field (field : string) :
  forall cur op,
    occurs "__" (field +:+ "_") = false ->
    split_go "__" 0 cur (field +:+ "__" +:+ op)
    = (cur +:+ field) :: split_go "__" 0 "" op.
Proof.
  induction field as [|c field IH]; intros cur op Hocc.
  - rewrite append_nil_r, append_nil_l.
    change ("__" +:+ op) with (String "_" (String "_" op)).
    cbn [split_go]. rewrite !prefix_cons.
    destruct (Ascii.ascii_dec "_" "_") as [_|Hne]; [| now contradiction Hne].
    rewrite prefix_nil. reflexivity.
  - rewrite append_cons in Hocc. cbn [occurs] in Hocc.
    apply orb_false_iff in Hocc as [Hpre Hocc].
    rewrite append_cons. cbn [split_go].
    rewrite prefix_dunder_field, Hpre.
    rewrite IH by exact Hocc. rewrite append_assoc. reflexivity.
Qed.

Lemma str_split_field_operation (field op : string) :
  occurs "__" (field +:+ "_") = false ->
  occurs "__" op = false ->
  str_split (field +:+ "__" +:+ op) "__" = [field; op].
Proof.
  intros Hfield Hop. unfold str_split.
  rewrite split_go_field by exact Hfield.
  rewrite split_go_no_sep by exact Hop. reflexivity.
Qed.

End SplitFacts.

(** X18: a keyword [field__operation] of [filter] (no further [__] in it)
    becomes the condition [addcond], field, opcode, value joined by zero
    bytes, the opcode being the decimal string [QUERY_OPERATIONS] holds for
    the operation and a list value being joined by commas; an operation
    that is not in the table is refused with [ValueError], and so is a
    keyword without [__]. *)
Theorem filter_condition_of_keyword
        (field op : string) (value : filter_value) :
  occurs "__" (field +:+ "_") = false ->
  occurs "__" op = false ->
  Query.filter_condition (field +:+ "__" +:+ op) value
  = match QUERY_OPERATIONS !! op with
    | Some opcode =>
        Ok ("addcond" +:+ NUL +:+ field +:+ NUL +:+ opcode +:+ NUL
            +:+ match value with
                | FStr s => s
                | FList items => String.concat "," items
                end)
    | None => Raise (ValueError (op +:+ " is not a valid query operation"))
    end
  /\ Query.filter_condition op value
     = Raise (ValueError
                "Filter arguments should be of the form `field__operation`").
Proof.
  intros Hfield Hop. split.
  - unfold Query.filter_condition.
    rewrite str_split_field_operation by assumption.
    destruct (QUERY_OPERATIONS !! op); reflexivity.
  - unfold Query.filter_condition, str_split.
    rewrite split_go_no_sep by exact Hop. reflexivity.
Qed.

Lemma filter_condition_witness :
  Query.filter_condition "first_name__strbw" (FStr "bo")
  = Ok ("addcond" +:+ NUL +:+ "first_name" +:+ NUL +:+ "2" +:+ NUL +:+ "bo")
  /\ Query.filter_condition "age__numxx" (FList ["1"; "2"])
     = Raise (ValueError "numxx is not a valid query operation").
Proof.
  split.
  - exact (proj1 (filter_condition_of_keyword "first_name" "strbw" (FStr "bo")
                    eq_refl eq_refl)).
  - exact (proj1 (filter_condition_of_keyword "age" "numxx" (FList ["1"; "2"])
                    eq_refl eq_refl)).
Defined.

(** X19: [order_by_num] and [order_by_str] read a leading [-] of the field
    as descending order and strip it: the derived query gets the condition
    [setorder], field, direction with direction 3 resp. 1 for a field given
    as [-field], and 2 resp. 0 for a field that does not start with [-]. *)
Theorem order_by_direction
        (w : world) (self : loc) (me : Query) (cs : list string)
        (field : string) :
  w_queries w !! self = Some me ->
  w_lists w !! conditions me = Some cs ->
  derived_from w me cs ["setorder" +:+ NUL +:+ field +:+ NUL +:+ "3"]
    (Query.order_by_num self ("-" +:+ field) w)
  /\ derived_from w me cs ["setorder" +:+ NUL +:+ field +:+ NUL +:+ "1"]
       (Query.order_by_str self ("-" +:+ field) w)
  /\ (String.prefix "-" field = false ->
      derived_from w me cs ["setorder" +:+ NUL +:+ field +:+ NUL +:+ "2"]
        (Query.order_by_num self field w)
      /\ derived_from w me cs ["setorder" +:+ NUL +:+ field +:+ NUL +:+ "0"]
           (Query.order_by_str self field w)).
Proof.
  intros Hself Hcs.
  assert (Hdesc : forall desc asc,
             Query.order_condition ("-" +:+ field) desc asc
             = "setorder" +:+ NUL +:+ field +:+ NUL +:+ Bytes.str desc).
  { intros desc asc. unfold Query.order_condition, startswith_dash.
    change ("-" +:+ field) with (String "-" field). rewrite prefix_cons.
    destruct (Ascii.ascii_dec "-" "-") as [_|Hne]; [| now contradiction Hne].
    rewrite prefix_nil. reflexivity. }
  assert (Hasc : forall desc asc,
             String.prefix "-" field = false ->
             Query.order_condition field desc asc
             = "setorder" +:+ NUL +:+ field +:+ NUL +:+ Bytes.str asc).
  { intros desc asc Hpre. unfold Query.order_condition, startswith_dash.
    rewrite Hpre. reflexivity. }
  split; [| split; [| intros Hpre; split]].
  - unfold Query.order_by_num. cbv zeta. rewrite Hdesc.
    apply (order_by_derives w self me cs Hself Hcs).
  - unfold Query.order_by_str. cbv zeta. rewrite Hdesc.
    apply (order_by_derives w self me cs Hself Hcs).
  - unfold Query.order_by_num. cbv zeta. rewrite Hasc by exact Hpre.
    apply (order_by_derives w self me cs Hself Hcs).
  - unfold Query.order_by_str. cbv zeta. rewrite Hasc by exact Hpre.
    apply (order_by_derives w self me cs Hself Hcs).
Qed.

Lemma order_by_direction_witness :
  derived_from example_world (mkQuery 9%positive 1%positive None)
    ["setorder" +:+ NUL +:+ "age" +:+ NUL +:+ "2"]
    ["setorder" +:+ NUL +:+ "name" +:+ NUL +:+ "1"]
    (Query.order_by_str 1%positive "-name" example_world)
  /\ derived_from example_world (mkQuery 9%positive 1%positive None)
       ["setorder" +:+ NUL +:+ "age" +:+ NUL +:+ "2"]
       ["setorder" +:+ NUL +:+ "name" +:+ NUL +:+ "2"]
       (Query.order_by_num 1%positive "name" example_world).
Proof.
  destruct (order_by_direction
              example_world 1%positive (mkQuery 9%positive 1%positive None)
              ["setorder" +:+ NUL +:+ "age" +:+ NUL +:+ "2"] "name"
              eq_refl eq_refl) as (_ & Hstr & Hasc).
  split; [exact Hstr | exact (proj1 (Hasc eq_refl))].
Defined.

(** ** The statistics report *)

Section StatFacts.

Lemma splitlines_go_line (l cur rest : string) :
  has_byte LF l = false -> has_byte CR l = false ->
  splitlines_go cur (l +:+ String LF rest)
  = (cur +:+ l) :: splitlines_go "" rest.
Proof.
  revert cur. induction l as [|c l IH]; intros cur HLF HCR.
  - rewrite append_nil_l, append_nil_r. cbn [splitlines_go].
    now rewrite Ascii.eqb_refl.
  - cbn [has_byte] in HLF, HCR.
    apply orb_false_iff in HLF as [Hc1 HLF].
    apply orb_false_iff in HCR as [Hc2 HCR].
    rewrite append_cons. cbn [splitlines_go]. rewrite Hc1, Hc2.
    rewrite IH by assumption.
    now rewrite append_assoc, append_cons, append_nil_l.
Qed.

Lemma splitlines_go_last (l cur : string) :
  has_byte LF l = false -> has_byte CR l = false -> cur +:+ l <> "" ->
  splitlines_go cur l = [cur +:+ l].
Proof.
  revert cur. induction l as [|c l IH]; intros cur HLF HCR Hne.
  - rewrite append_nil_r in *. cbn [splitlines_go].
    destruct cur; [congruence | reflexivity].
  - cbn [has_byte] in HLF, HCR.
    apply orb_false_iff in HLF as [Hc1 HLF].
    apply orb_false_iff in HCR as [Hc2 HCR].
    cbn [splitlines_go]. rewrite Hc1, Hc2.
    assert (Heq : (cur +:+ String c "") +:+ l = cur +:+ String c l)
      by now rewrite append_assoc, append_cons, append_nil_l.
    rewrite IH by (rewrite ?Heq; assumption).
    now rewrite Heq.
Qed.

Lemma has_byte_app (c : ascii) (a b : string) :
  has_byte c (a +:+ b) = has_byte c a || has_byte c b.
Proof.
  induction a as [|x a IH].
  - now rewrite append_nil_l.
  - rewrite append_cons. cbn [has_byte]. rewrite IH. apply orb_assoc.
Qed.

Lemma stat_line_no_end (p : string * string) :
  stat_pair_ok p ->
  has_byte LF (p.1 +:+ String TAB p.2) = false
  /\ has_byte CR (p.1 +:+ String TAB p.2) = false.
Proof.
  intros (_ & H1 & H2 & H3 & H4).
  rewrite !has_byte_app. cbn [has_byte]. rewrite H1, H2, H3, H4.
  split; reflexivity.
Qed.

Lemma splitlines_report (ps : list (string * string)) (l : string) :
  Forall stat_pair_ok ps ->
  has_byte LF l = false -> has_byte CR l = false ->
  splitlines (stat_report ps +:+ l)
  = ((fun p => p.1 +:+ String TAB p.2) <$> ps)
    ++ match l with EmptyString => [] | _ => [l] end.
Proof.
  intros Hps HLF HCR. unfold splitlines.
  induction Hps as [|[k v] ps Hp Hps IH].
  - cbn [stat_report fmap list_fmap app]. rewrite append_nil_l.
    destruct l as [|c l]; [reflexivity |].
    rewrite splitlines_go_last; rewrite ?append_nil_l; try assumption.
    + reflexivity.
    + discriminate.
  - cbn [stat_report].
    destruct (stat_line_no_end (k, v) Hp) as [H1 H2]. cbn [fst snd] in H1, H2.
    replace ((k +:+ String TAB v +:+ String LF (stat_report ps)) +:+ l)
      with ((k +:+ String TAB v) +:+ String LF (stat_report ps +:+ l)).
    + rewrite splitlines_go_line by assumption.
      rewrite append_nil_l, IH. reflexivity.
    + repeat (rewrite ?append_assoc, ?append_cons). reflexivity.
Qed.

Lemma split_once_go_pair (sep : ascii) (k cur v : string) :
  has_byte sep k = false ->
  split_once_go sep cur (k +:+ String sep v) = [cur +:+ k; v].
Proof.
  revert cur. induction k as [|c k IH]; intros cur Hk.
  - rewrite append_nil_l, append_nil_r. cbn [split_once_go].
    now rewrite Ascii.eqb_refl.
  - cbn [has_byte] in Hk. apply orb_false_iff in Hk as [Hc Hk].
    rewrite append_cons. cbn [split_once_go]. rewrite Hc.
    rewrite IH by assumption.
    now rewrite append_assoc, append_cons, append_nil_l.
Qed.

Lemma split_once_go_none (sep : ascii) (l cur : string) :
  has_byte sep l = false -> split_once_go sep cur l = [cur +:+ l].
Proof.
  revert cur. induction l as [|c l IH]; intros cur Hl.
  - now rewrite append_nil_r.
  - cbn [has_byte] in Hl. apply orb_false_iff in Hl as [Hc Hl].
    cbn [split_once_go]. rewrite Hc, IH by assumption.
    now rewrite append_assoc, append_cons, append_nil_l.
Qed.

Lemma stat_lines_nonempty (ps : list (string * string)) :
  filter (fun l => l <> EmptyString)
         ((fun p => p.1 +:+ String TAB p.2) <$> ps)
  = (fun p => p.1 +:+ String TAB p.2) <$> ps.
Proof.
  induction ps as [|[k v] ps IH]; [reflexivity |].
  cbn [fmap list_fmap fst snd] in *.
  rewrite filter_cons_True.
  - now rewrite IH.
  - destruct k; [rewrite append_nil_l | rewrite append_cons]; discriminate.
Qed.

Lemma dict_of_seqs_pairs (ps : list (string * string)) (i : Z)
      (d : gmap string string) (tl : list (list string)) :
  dict_of_seqs i d (((fun p => [p.1; p.2]) <$> ps) ++ tl)
  = dict_of_seqs (i + Z.of_nat (length ps)) (foldl insert_pair d ps) tl.
Proof.
  revert i d. induction ps as [|[k v] ps IH]; intros i d.
  - cbn [fmap list_fmap app length foldl]. now rewrite Z.add_0_r.
  - cbn [fmap list_fmap app length foldl fst snd dict_of_seqs].
    fold (fmap (M := list) (fun p : string * string => [p.1; p.2]) ps).
    rewrite IH. unfold insert_pair at 2. cbn [fst snd].
    f_equal. lia.
Qed.

Lemma stat_ok (report rest out : string) :
  fits32 report ->
  Tyrant.stat
    {| incoming := Wire.status 0 +:+ Wire.lstr report +:+ rest;
       outgoing := out |}
  = (Ok report, {| incoming := rest; outgoing := out +:+ frame0 C.stat |}).
Proof.
  intros Hfit. unfold Tyrant.stat, bind, pure.
  change (_t0 C.stat) with (Ok [frame0 C.stat]).
  unfold socksend, sendall. cbn [incoming outgoing].
  now rewrite socksuccess_ok, sockstr_lstr.
Qed.

Lemma split_lines_pairs (ps : list (string * string)) :
  Forall stat_pair_ok ps ->
  (fun l => split_once l TAB) <$> ((fun p => p.1 +:+ String TAB p.2) <$> ps)
  = (fun p => [p.1; p.2]) <$> ps.
Proof.
  intros Hps. induction Hps as [|[k v] ps Hp Hps IH]; [reflexivity |].
  cbn [fmap list_fmap fst snd] in *. rewrite IH. f_equal.
  unfold split_once. destruct Hp as (Ht & _). cbn [fst] in Ht.
  now rewrite split_once_go_pair, append_nil_l.
Qed.

End StatFacts.

(** X20: [get_stats] turns a report of lines [name TAB value LF] into the
    dictionary of its entries, a later line replacing an earlier one of the
    same name, and a value keeping its own tabs; when a last line has no
    tab, [dict] raises [ValueError] naming that line's position, after the
    report has been read. *)
Theorem get_stats_parses_report
        (ps : list (string * string)) (l rest out : string) :
  Forall stat_pair_ok ps ->
  has_byte TAB l = false -> has_byte LF l = false -> has_byte CR l = false ->
  fits32 (stat_report ps +:+ l) ->
  PyTyrant.get_stats
    {| incoming := Wire.status 0 +:+ Wire.lstr (stat_report ps +:+ l) +:+ rest;
       outgoing := out |}
  = (match l with
     | EmptyString => Ok (foldl insert_pair ∅ ps)
     | _ => Raise (ValueError
                     ("dictionary update sequence element #"
                      +:+ Bytes.str (Z.of_nat (length ps))
                      +:+ " has length 1; 2 is required"))
     end,
     {| incoming := rest; outgoing := out +:+ frame0 C.stat |}).
Proof.
  intros Hps Ht HLF HCR Hfit. unfold PyTyrant.get_stats, bind.
  rewrite stat_ok by exact Hfit. unfold pure. f_equal.
  rewrite splitlines_report by assumption.
  rewrite filter_app, stat_lines_nonempty, fmap_app, split_lines_pairs
    by assumption.
  rewrite dict_of_seqs_pairs. rewrite Z.add_0_l.
  destruct l as [|c l]; [reflexivity |].
  rewrite filter_cons_True, filter_nil by discriminate.
  cbn [fmap list_fmap]. unfold split_once.
  rewrite split_once_go_none, append_nil_l by assumption.
  reflexivity.
Qed.

Lemma get_stats_witness :
  fst (PyTyrant.get_stats
         {| incoming :=
              Wire.status 0
              +:+ Wire.lstr (stat_report [("rnum", "3"); ("rnum", "4")]);
            outgoing := "" |})
  = Ok {[ "rnum" := "4" ]}.
Proof.
  pose proof (get_stats_parses_report [("rnum", "3"); ("rnum", "4")] "" "" ""
                ltac:(repeat constructor) eq_refl eq_refl eq_refl
                ltac:(now vm_compute)) as H.
  rewrite !append_nil_r in H. rewrite H. reflexivity.
Defined.

(** ** Bulk writes of the table wrapper *)

Lemma extend_records_pairs (items : list (string * list (string * string))) :
  forall lst,
    PyTableTyrant.extend_records lst items
    = PyTyrant.extend_pairs lst
        ((fun kv => (kv.1, String.concat NUL (dict_to_list kv.2))) <$> items).
Proof.
  induction items as [|[k v] items IH]; intros lst; [reflexivity |].
  cbn [PyTableTyrant.extend_records fmap list_fmap PyTyrant.extend_pairs
       fst snd].
  rewrite IH. reflexivity.
Qed.

(** X21: the table wrapper's [multi_set] behaves, on every connection, as
    the plain wrapper's [multi_set] given each key with its record
    flattened to [column, value, column, value, ...] and joined by NUL
    bytes. *)
Theorem table_multi_set_joins_columns
        (items : list (string * list (string * string)))
        (no_update_log : bool) (s : sock) :
  PyTableTyrant.multi_set items no_update_log s
  = PyTyrant.multi_set
      ((fun kv => (kv.1, String.concat NUL (dict_to_list kv.2))) <$> items)
      no_update_log s.
Proof.
  unfold PyTableTyrant.multi_set, PyTyrant.multi_set. cbv zeta.
  now rewrite extend_records_pairs.
Qed.
